(** * Draw-and-Tell kid app: the session screens as event-driven state machines

    The React components of [frontend/kid_app] are embedded as explicit
    state-passing programs.  A component's [useState] cells form a record,
    the browser objects it talks to (media recorders, audio elements,
    local storage, outstanding requests) form a second record, and every
    event handler is a computation in a small state-and-exception monad.
    An [await] ends the running handler with the outcome [Awaiting]; the
    code behind the [await] is a second computation that the matching
    completion event runs. *)

From stdpp Require Import base option list strings pretty.
From Stdlib Require Import ZArith Lia.

Local Open Scope Z_scope.

(** ** JavaScript values and browser built-ins *)

Module Js.

Inductive value :=
| Undefined
| Null
| Bool (b : bool)
| Num (n : Z)
| Str (s : string).

(** [ToBoolean]: what [if (v)], [!v] and [v || w] test. *)
Definition truthy (v : value) : bool :=
  match v with
  | Undefined | Null => false
  | Bool b => b
  | Num n => negb (n =? 0)
  | Str s => negb (String.eqb s "")
  end.

(** [v === 0]. *)
Definition is_zero (v : value) : bool :=
  match v with
  | Num 0 => true
  | _ => false
  end.

(** Truthiness of a [useState] cell that holds [null] or a string. *)
Definition truthy_str (e : option string) : bool :=
  match e with
  | Some s => negb (String.eqb s "")
  | None => false
  end.

End Js.

(** Binary data: the payload of a [Blob]. *)
Definition Blob := list Byte.byte.

(** [new Blob(parts)] concatenates its parts. *)
Definition newBlob (parts : list Blob) : Blob := concat parts.

Definition blob_size (b : Blob) : nat := length b.

(** Built-ins whose definition belongs to the browser.  [atob] yields [None]
    where the browser throws [InvalidCharacterError]. *)
Class Browser := {
  atob : Js.value → option Blob;
  parseInt : Js.value → Js.value
}.

(** ** Handlers: state, exceptions and suspension at [await] *)

Inductive Outcome (A : Type) :=
| Returned (a : A)
| Threw (msg : string)
| Awaiting.
Arguments Returned {A} a.
Arguments Threw {A} msg.
Arguments Awaiting {A}.

Definition Handler (W A : Type) : Type := W → Outcome A * W.

Section HandlerMonad.
Context {W : Type}.

Definition ret {A} (a : A) : Handler W A := λ w, (Returned a, w).

Definition bind {A B} (m : Handler W A) (k : A → Handler W B) : Handler W B :=
  λ w, match m w with
       | (Returned a, w') => k a w'
       | (Threw e, w') => (Threw e, w')
       | (Awaiting, w') => (Awaiting, w')
       end.

Definition throw {A} (msg : string) : Handler W A := λ w, (Threw msg, w).

(** The handler stops at an [await]; its completion event runs the rest. *)
Definition await : Handler W unit := λ w, (Awaiting, w).

Definition get {A} (f : W → A) : Handler W A := λ w, (Returned (f w), w).

Definition modify (f : W → W) : Handler W unit := λ w, (Returned tt, f w).

(** [try { body } catch (err) { handler }]. *)
Definition try_catch (body : Handler W unit) (handler : string → Handler W unit)
  : Handler W unit :=
  λ w, match body w with
       | (Threw e, w') => handler e w'
       | r => r
       end.

(** [try { body } finally { final }]: [final] runs when [body] returns or
    throws, not while it is suspended at an [await]. *)
Definition try_finally (body final : Handler W unit) : Handler W unit :=
  λ w, match body w with
       | (Returned _, w') => final w'
       | (Threw e, w') =>
           match final w' with
           | (Returned _, w'') => (Threw e, w'')
           | r => r
           end
       | (Awaiting, w') => (Awaiting, w')
       end.

Definition when (b : bool) (m : Handler W unit) : Handler W unit :=
  if b then m else ret tt.

(** The world a handler leaves behind. *)
Definition exec {A} (m : Handler W A) (w : W) : W := snd (m w).

(** A call [f()] of an async function whose promise is dropped: [f] runs
    up to its first [await] or to its end, and the caller goes on. *)
Definition call_async (m : Handler W unit) : Handler W unit :=
  λ w, (Returned tt, exec m w).

End HandlerMonad.

#[global] Instance handler_ret {W} : MRet (Handler W) := λ A, @ret W A.
#[global] Instance handler_bind {W} : MBind (Handler W) := λ A B k m, @bind W A B m k.

(** ** TalkScreen.jsx *)

Module TalkScreen.

(** A blob URL, named by its position in the registry of
    [URL.createObjectURL]. *)
Definition Url := nat.

Inductive TrackState := Live | Ended.

Inductive RecorderState := Recording | Inactive.

(** A [MediaRecorder] with the stream it records, the audio it has
    gathered since [start()], and whether a [stop()] has queued its
    [dataavailable] and [stop] events, which the browser dispatches in a
    later task. *)
Record Recorder := mkRecorder {
  rec_state : RecorderState;
  rec_stream : list TrackState;
  rec_buffer : Blob;
  rec_stopping : bool
}.

(** An [<audio>] element: its source, whether it plays, and whether a
    call is waiting on it ([playAudio] for [canplaythrough],
    [playResponseAudio] for [play()]). *)
Record AudioElement := mkAudio {
  a_src : option Url;
  a_playing : bool;
  a_waiting : bool
}.

(** The fields of [location.state] that the screen reads. *)
Record LocationState := mkLoc {
  loc_question : Js.value;
  loc_questionAudio : Js.value;
  loc_drawingId : Js.value;
  loc_questionId : Js.value
}.

(** [location.state || {}]. *)
Definition orEmpty (l : option LocationState) : LocationState :=
  default (mkLoc Js.Undefined Js.Undefined Js.Undefined Js.Undefined) l.

(** The multipart body of [POST /transcribe-answer]. *)
Record FormData := mkForm {
  fd_audio : Blob;
  fd_drawing_id : Js.value;
  fd_question_id : Js.value
}.

Record TranscribeResult := mkResult {
  res_response : Js.value;
  res_responseAudio : Js.value
}.

(** What [fetch] settles with: a rejection, or a response whose [json()]
    yields a result or rejects. *)
Inductive FetchOutcome :=
| Rejected
| Resolved (ok : bool) (json : option TranscribeResult).

Inductive Route := TalkRoute | EndRoute | Elsewhere.

(** The [useState] cells, in the order of the source. *)
Record State := mkState {
  isRecording : bool;
  recordedChunks : list Blob;
  mediaRecorder : option nat;
  isLoading : bool;
  error : option string;
  question : Js.value;
  questionAudio : option Url;
  hasRecording : bool;
  response : Js.value;
  responseAudio : option Url;
  showResponse : bool;
  questionAudioPlayed : bool
}.

Definition initialState : State :=
  mkState false [] None true None Js.Null None false Js.Null None false false.

(** The question [<audio>] elements live in a store, as the recorders do:
    a [playAudio] call keeps the element it started on, whether or not the
    element is still rendered, and [audioRef] names the rendered one.  The
    response element is only used while it is rendered. *)
Record World := mkWorld {
  ui : State;
  route : Route;
  recorders : list Recorder;      (* every MediaRecorder created so far *)
  micPending : nat;               (* getUserMedia calls not yet settled *)
  requests : list FormData;       (* every transcribe request issued *)
  inFlight : nat;                 (* transcribe requests not yet settled *)
  objectUrls : list Blob;         (* registry of URL.createObjectURL *)
  audioRef : option nat;          (* audioRef.current, an element of [audios] *)
  responseAudioRef : option AudioElement;
  playLog : list Url;             (* sources handed to playAudio, oldest first *)
  audios : list AudioElement;     (* every question audio element created so far *)
  playStarts : list Url           (* sources whose playback has started, oldest first *)
}.

Definition initialWorld : World :=
  mkWorld initialState TalkRoute [] 0 [] 0 [] None None [] [] [].

Definition with_isRecording v (s : State) : State :=
  let '(mkState _ b c d e f g h i j k l) := s in mkState v b c d e f g h i j k l.
Definition with_recordedChunks v (s : State) : State :=
  let '(mkState a _ c d e f g h i j k l) := s in mkState a v c d e f g h i j k l.
Definition with_mediaRecorder v (s : State) : State :=
  let '(mkState a b _ d e f g h i j k l) := s in mkState a b v d e f g h i j k l.
Definition with_isLoading v (s : State) : State :=
  let '(mkState a b c _ e f g h i j k l) := s in mkState a b c v e f g h i j k l.
Definition with_error v (s : State) : State :=
  let '(mkState a b c d _ f g h i j k l) := s in mkState a b c d v f g h i j k l.
Definition with_question v (s : State) : State :=
  let '(mkState a b c d e _ g h i j k l) := s in mkState a b c d e v g h i j k l.
Definition with_questionAudio v (s : State) : State :=
  let '(mkState a b c d e f _ h i j k l) := s in mkState a b c d e f v h i j k l.
Definition with_hasRecording v (s : State) : State :=
  let '(mkState a b c d e f g _ i j k l) := s in mkState a b c d e f g v i j k l.
Definition with_response v (s : State) : State :=
  let '(mkState a b c d e f g h _ j k l) := s in mkState a b c d e f g h v j k l.
Definition with_responseAudio v (s : State) : State :=
  let '(mkState a b c d e f g h i _ k l) := s in mkState a b c d e f g h i v k l.
Definition with_showResponse v (s : State) : State :=
  let '(mkState a b c d e f g h i j _ l) := s in mkState a b c d e f g h i j v l.
Definition with_questionAudioPlayed v (s : State) : State :=
  let '(mkState a b c d e f g h i j k _) := s in mkState a b c d e f g h i j k v.

Definition with_ui v (w : World) : World :=
  let '(mkWorld _ b c d e f g h i j k l) := w in mkWorld v b c d e f g h i j k l.
Definition with_route v (w : World) : World :=
  let '(mkWorld a _ c d e f g h i j k l) := w in mkWorld a v c d e f g h i j k l.
Definition with_recorders v (w : World) : World :=
  let '(mkWorld a b _ d e f g h i j k l) := w in mkWorld a b v d e f g h i j k l.
Definition with_micPending v (w : World) : World :=
  let '(mkWorld a b c _ e f g h i j k l) := w in mkWorld a b c v e f g h i j k l.
Definition with_requests v (w : World) : World :=
  let '(mkWorld a b c d _ f g h i j k l) := w in mkWorld a b c d v f g h i j k l.
Definition with_inFlight v (w : World) : World :=
  let '(mkWorld a b c d e _ g h i j k l) := w in mkWorld a b c d e v g h i j k l.
Definition with_objectUrls v (w : World) : World :=
  let '(mkWorld a b c d e f _ h i j k l) := w in mkWorld a b c d e f v h i j k l.
Definition with_audioRef v (w : World) : World :=
  let '(mkWorld a b c d e f g _ i j k l) := w in mkWorld a b c d e f g v i j k l.
Definition with_responseAudioRef v (w : World) : World :=
  let '(mkWorld a b c d e f g h _ j k l) := w in mkWorld a b c d e f g h v j k l.
Definition with_playLog v (w : World) : World :=
  let '(mkWorld a b c d e f g h i _ k l) := w in mkWorld a b c d e f g h i v k l.
Definition with_audios v (w : World) : World :=
  let '(mkWorld a b c d e f g h i j _ l) := w in mkWorld a b c d e f g h i j v l.
Definition with_playStarts v (w : World) : World :=
  let '(mkWorld a b c d e f g h i j k _) := w in mkWorld a b c d e f g h i j k v.

Definition M := Handler World.

(** The [set...] functions of [useState]. *)
Definition setUi (f : State → State) : M unit := modify (λ w, with_ui (f (ui w)) w).
Definition setIsRecording (v : bool) : M unit := setUi (with_isRecording v).
Definition setRecordedChunks (f : list Blob → list Blob) : M unit :=
  setUi (λ s, with_recordedChunks (f (recordedChunks s)) s).
Definition setMediaRecorder (v : option nat) : M unit := setUi (with_mediaRecorder v).
Definition setIsLoading (v : bool) : M unit := setUi (with_isLoading v).
Definition setError (v : option string) : M unit := setUi (with_error v).
Definition setQuestion (v : Js.value) : M unit := setUi (with_question v).
Definition setQuestionAudio (v : option Url) : M unit := setUi (with_questionAudio v).
Definition setHasRecording (v : bool) : M unit := setUi (with_hasRecording v).
Definition setResponse (v : Js.value) : M unit := setUi (with_response v).
Definition setResponseAudio (v : option Url) : M unit := setUi (with_responseAudio v).
Definition setShowResponse (v : bool) : M unit := setUi (with_showResponse v).
Definition setQuestionAudioPlayed (v : bool) : M unit := setUi (with_questionAudioPlayed v).

Definition navigate (r : Route) : M unit := modify (with_route r).

(** [URL.createObjectURL(blob)]: a URL that was not handed out before. *)
Definition createObjectURL (b : Blob) : M Url :=
  λ w, (Returned (length (objectUrls w)), with_objectUrls (objectUrls w ++ [b]) w).

(** The content branch of the render (question bubble, buttons and the two
    audio elements) shows when the spinner and the error box do not. *)
Definition contentRendered (s : State) : bool :=
  negb (isLoading s) && negb (Js.truthy_str (error s)).

(** The text in the question bubble, when the bubble is on screen. *)
Definition questionBubble (s : State) : option Js.value :=
  if contentRendered s && negb (showResponse s)
  then Some (if Js.truthy (question s) then question s
             else Js.Str "Tell me about what you drew!")
  else None.

(** The text in the response bubble, when the bubble is on screen. *)
Definition responseBubble (s : State) : option Js.value :=
  if contentRendered s && showResponse s then Some (response s) else None.

Section Component.
Context {browser : Browser}.

(** [location.state], fixed for the lifetime of the screen. *)
Variable loc : option LocationState.

(** *** The question (lines 114-152) *)

Definition getQuestion : M unit :=
  try_finally
    (try_catch
       (setIsLoading true;;
        setError None;;
        let generatedQuestion := loc_question (orEmpty loc) in
        let audioData := loc_questionAudio (orEmpty loc) in
        (if negb (Js.truthy generatedQuestion)
         then throw "No question found. Please try again."
         else ret tt);;
        setQuestion generatedQuestion;;
        when (Js.truthy audioData)
          (try_catch
             (match atob audioData with
              | Some bytes =>
                  audioUrl ← createObjectURL bytes;
                  setQuestionAudio (Some audioUrl)
              | None => throw "InvalidCharacterError"
              end)
             (λ _, ret tt));;
        setIsLoading false)
       (λ _, setError (Some "Oops! Something went wrong. Please try again.")))
    (setIsLoading false).

(** *** Recording (lines 154-195) *)

Definition alterRecorder (i : nat) (f : Recorder → Recorder) : M unit :=
  modify (λ w, with_recorders (alter f i (recorders w)) w).

(** [mediaRecorder && mediaRecorder.state === 'recording']. *)
Definition recording (mr : option nat) (w : World) : bool :=
  match mr with
  | Some i =>
      match recorders w !! i with
      | Some r => match rec_state r with Recording => true | Inactive => false end
      | None => false
      end
  | None => false
  end.

(** [recorder.ondataavailable]. *)
Definition ondataavailable (data : Blob) : M unit :=
  when (0 <? blob_size data)%nat (setRecordedChunks (λ chunks, chunks ++ [data])).

(** [recorder.onstop] of recorder [i], which closes over its stream. *)
Definition onstop (i : nat) : M unit :=
  alterRecorder i (λ r, mkRecorder (rec_state r) (const Ended <$> rec_stream r)
                          (rec_buffer r) (rec_stopping r));;
  setHasRecording true.

(** [recorder.stop()]: the recorder becomes inactive at once; the
    [dataavailable] event with the gathered audio and the [stop] event
    are queued, and no handler runs within the call. *)
Definition recorder_stop (i : nat) : M unit :=
  alterRecorder i (λ r, mkRecorder Inactive (rec_stream r) (rec_buffer r) true).

(** The queued events of recorder [i] are dispatched: [ondataavailable]
    with what was gathered, then [onstop]. *)
Definition recorder_stopped (i : nat) : M unit :=
  data ← get (λ w, default [] (rec_buffer <$> recorders w !! i));
  alterRecorder i (λ r, mkRecorder (rec_state r) (rec_stream r) [] false);;
  ondataavailable data;;
  onstop i.

(** [startRecording] up to its [await]. *)
Definition startRecording : M unit :=
  try_catch
    (setError None;;
     modify (λ w, with_micPending (S (micPending w)) w);;
     await)
    (λ _, setError (Some "Could not access microphone. Please check permissions.")).

(** [startRecording] once [getUserMedia] has settled: with a stream of
    [n] live tracks, or with a rejection. *)
Definition startRecording_resume (stream : option nat) : M unit :=
  try_catch
    (match stream with
     | None => throw "NotAllowedError"
     | Some n =>
         recorder ← get (λ w, length (recorders w));
         modify (λ w, with_recorders
                        (recorders w ++ [mkRecorder Inactive (replicate n Live) [] false]) w);;
         setMediaRecorder (Some recorder);;
         alterRecorder recorder (λ r, mkRecorder Recording (rec_stream r) (rec_buffer r)
                                        (rec_stopping r));;
         setIsRecording true;;
         setHasRecording false
     end)
    (λ _, setError (Some "Could not access microphone. Please check permissions.")).

Definition stopRecording : M unit :=
  mr ← get (λ w, mediaRecorder (ui w));
  now_recording ← get (recording mr);
  match mr with
  | Some i => when now_recording (recorder_stop i;; setIsRecording false)
  | None => ret tt
  end.

Definition handleTalkClick : M unit :=
  busy ← get (λ w, isRecording (ui w));
  if (busy : bool) then stopRecording else call_async startRecording.

(** *** Finishing (lines 197-270) *)

(** [fetch(API_BASE_URL/transcribe-answer, POST formData)] and the
    [await] on it. *)
Definition postTranscribeAnswer (body : FormData) : M unit :=
  modify (λ w, with_inFlight (S (inFlight w)) (with_requests (requests w ++ [body]) w));;
  await.

Definition handleFinish_catch : string → M unit :=
  λ _, setError (Some "Could not save your recording. Try again!").

(** [handleFinish] up to its first [await]. *)
Definition handleFinish : M unit :=
  try_finally
    (try_catch
       (setIsLoading true;;
        setError None;;
        recorded ← get (λ w, hasRecording (ui w));
        if negb recorded then navigate EndRoute
        else
          chunks ← get (λ w, recordedChunks (ui w));
          let audioBlob := newBlob chunks in
          let drawingId := loc_drawingId (orEmpty loc) in
          let questionId := loc_questionId (orEmpty loc) in
          if negb (Js.truthy drawingId) || negb (Js.truthy questionId)
             || Js.is_zero drawingId || Js.is_zero questionId
          then setError (Some "Missing drawing or question ID.")
          else postTranscribeAnswer
                 (mkForm audioBlob (parseInt drawingId) (parseInt questionId)))
       handleFinish_catch)
    (setIsLoading false).

(** [handleFinish] once the request has settled. *)
Definition handleFinish_resume (r : FetchOutcome) : M unit :=
  try_finally
    (try_catch
       (result ← match r with
                 | Rejected => throw "TypeError: Failed to fetch"
                 | Resolved false _ => throw "Failed to process recording"
                 | Resolved true None => throw "SyntaxError"
                 | Resolved true (Some result) => ret result
                 end;
        if Js.truthy (res_response result) then
          setResponse (res_response result);;
          setShowResponse true;;
          when (Js.truthy (res_responseAudio result))
            (try_catch
               (match atob (res_responseAudio result) with
                | Some bytes =>
                    audioUrl ← createObjectURL bytes;
                    setResponseAudio (Some audioUrl)
                | None => throw "InvalidCharacterError"
                end)
               (λ _, ret tt))
        else navigate EndRoute)
       handleFinish_catch)
    (setIsLoading false).

Definition handleContinue : M unit := navigate EndRoute.

(** *** Effects (lines 26-112) *)

Definition pause (a : AudioElement) : AudioElement :=
  mkAudio (a_src a) false (a_waiting a).

Definition alterAudio (a : nat) (f : AudioElement → AudioElement) : M unit :=
  modify (λ w, with_audios (alter f a (audios w)) w).

(** Cleanup of the first effect; [mr] is the [mediaRecorder] of the
    render that installed the effect. *)
Definition cleanup (mr : option nat) : M unit :=
  now_recording ← get (recording mr);
  match mr with
  | Some i => when now_recording (recorder_stop i)
  | None => ret tt
  end;;
  element ← get audioRef;
  match element with
  | Some a => alterAudio a pause
  | None => ret tt
  end.

Definition playAudio_catch : string → M unit :=
  λ _, setError (Some "Unable to play the question audio. Please try again.").

(** [playAudio] up to its [await] on [canplaythrough].  The call works on
    the element that [audioRef] holds when it starts, and that element,
    now with the source and the handlers of this call, is what the
    [await] waits on. *)
Definition playAudio (src : Url) : M unit :=
  try_catch
    (element ← get audioRef;
     match element with
     | Some a =>
         alterAudio a (λ _, mkAudio (Some src) false true);;
         modify (λ w, with_playLog (playLog w ++ [src]) w);;
         await
     | None => throw "TypeError"
     end)
    playAudio_catch.

(** The [playAudio] call that waits on element [a], once the element can
    play through and [audio.play()] has started playback, firing [onplay]
    ([ok]), or once loading or playing has failed.  The element may have
    left the document in the meantime. *)
Definition playAudio_resume (a : nat) (ok : bool) : M unit :=
  try_catch
    (if ok then
       src ← get (λ w, audios w !! a ≫= a_src);
       alterAudio a (λ e, mkAudio (a_src e) true false);;
       modify (λ w, with_playStarts (playStarts w ++ from_option (λ url, [url]) [] src) w);;
       setQuestionAudioPlayed true
     else
       alterAudio a (λ e, mkAudio (a_src e) (a_playing e) false);;
       throw "NotSupportedError")
    playAudio_catch.

(** The second effect, on [questionAudio, questionAudioPlayed]. *)
Definition playEffect : M unit :=
  src ← get (λ w, questionAudio (ui w));
  element ← get audioRef;
  played ← get (λ w, questionAudioPlayed (ui w));
  match src, element with
  | Some url, Some _ => if negb played then call_async (playAudio url) else ret tt
  | _, _ => ret tt
  end.

(** The third effect, on [responseAudio]. *)
Definition responseEffect : M unit :=
  src ← get (λ w, responseAudio (ui w));
  element ← get responseAudioRef;
  match src, element with
  | Some url, Some _ =>
      modify (λ w, with_responseAudioRef (Some (mkAudio (Some url) false true)) w)
  | _, _ => ret tt
  end.

Definition freshAudio : AudioElement := mkAudio None false false.

(** The audio elements leave the document: React clears the two refs, and
    the browser pauses a media element that is removed. *)
Definition detachRefs : M unit :=
  element ← get audioRef;
  match element with
  | Some a => alterAudio a pause
  | None => ret tt
  end;;
  modify (λ w, with_audioRef None (with_responseAudioRef None w)).

(** A commit attaches the two refs to the rendered audio elements, new
    ones when the content comes on screen, and clears them when the
    spinner or the error box replaces the content. *)
Definition attachRefs : M unit :=
  rendered ← get (λ w, contentRendered (ui w));
  if (rendered : bool) then
    element ← get audioRef;
    match element with
    | Some _ => ret tt
    | None =>
        modify (λ w, with_audioRef (Some (length (audios w)))
                       (with_audios (audios w ++ [freshAudio]) w))
    end;;
    modify (λ w, with_responseAudioRef (Some (default freshAudio (responseAudioRef w))) w)
  else detachRefs.

(** The effects that a commit runs, given the state [old] of the commit
    before the event.  First the effect on [mediaRecorder]: when the
    stored recorder has changed, the cleanup of the previous render
    runs, then [getQuestion], whose state changes are committed. *)
Definition recorderEffect (old : State) : M unit :=
  mr ← get (λ w, mediaRecorder (ui w));
  when (bool_decide (mr ≠ mediaRecorder old))
    (cleanup (mediaRecorder old);; call_async getQuestion;; attachRefs).

(** Then the effects on the question audio and on the response audio.
    Only [getUserMedia] settling changes [mediaRecorder], and it leaves
    the dependencies of these two alone, so each effect runs at most
    once per event, on the state its predecessors leave. *)
Definition audioEffects (old : State) : M unit :=
  now ← get ui;
  when (bool_decide (questionAudio now ≠ questionAudio old
                     ∨ questionAudioPlayed now ≠ questionAudioPlayed old))
    playEffect;;
  when (bool_decide (responseAudio now ≠ responseAudio old)) responseEffect.

Definition flushEffects (old : State) : M unit :=
  attachRefs;;
  recorderEffect old;;
  audioEffects old.

(** Mounting: the first commit runs [getQuestion]; the other effects see
    [null] audio and do nothing until the commit that follows. *)
Definition mount : World :=
  exec (attachRefs;; call_async getQuestion;; flushEffects initialState) initialWorld.

(** Unmounting: the commit that removes the screen detaches the refs of
    its elements, and the cleanup of the latest render runs after it
    (React 17 and later), so the cleanup finds [audioRef.current] null. *)
Definition unmount : M unit :=
  mr ← get (λ w, mediaRecorder (ui w));
  detachRefs;;
  cleanup mr.

(** *** Events *)

Inductive Event :=
| ClickTalk
| ClickFinish
| ClickContinue
| ClickTryAgain
| UserMediaGranted (tracks : nat)
| UserMediaDenied
| RecorderData (i : nat) (data : Blob)
| RecorderStopped (i : nat)
| FetchSettled (r : FetchOutcome)
| AudioSettled (a : nat) (ok : bool)
| AudioEnded (a : nat)
| NavigateAway.

Definition mounted (w : World) : bool :=
  match route w with TalkRoute => true | _ => false end.

(** Which events can happen: a button can be clicked when it is rendered
    and not disabled, a completion needs its pending operation. *)
Definition enabled (e : Event) (w : World) : bool :=
  match e with
  | ClickTalk | ClickFinish =>
      mounted w && contentRendered (ui w) && negb (showResponse (ui w))
      && negb (isLoading (ui w))
  | ClickContinue =>
      mounted w && contentRendered (ui w) && showResponse (ui w)
  | ClickTryAgain =>
      mounted w && negb (isLoading (ui w)) && Js.truthy_str (error (ui w))
  | UserMediaGranted _ | UserMediaDenied => (0 <? micPending w)%nat
  | RecorderData i _ => recording (Some i) w
  | RecorderStopped i =>
      match recorders w !! i with Some r => rec_stopping r | None => false end
  | FetchSettled _ => (0 <? inFlight w)%nat
  | AudioSettled a _ =>
      match audios w !! a with Some e => a_waiting e | None => false end
  | AudioEnded a =>
      match audios w !! a with Some e => a_playing e | None => false end
  | NavigateAway => mounted w
  end.

Definition handle (e : Event) : M unit :=
  match e with
  | ClickTalk => handleTalkClick
  | ClickFinish => handleFinish
  | ClickContinue => handleContinue
  | ClickTryAgain => getQuestion
  | UserMediaGranted n =>
      modify (λ w, with_micPending (pred (micPending w)) w);;
      startRecording_resume (Some n)
  | UserMediaDenied =>
      modify (λ w, with_micPending (pred (micPending w)) w);;
      startRecording_resume None
  | RecorderData i data =>
      alterRecorder i (λ r, mkRecorder (rec_state r) (rec_stream r) (rec_buffer r ++ data)
                              (rec_stopping r))
  | RecorderStopped i => recorder_stopped i
  | FetchSettled r =>
      modify (λ w, with_inFlight (pred (inFlight w)) w);;
      handleFinish_resume r
  | AudioSettled a ok => playAudio_resume a ok
  | AudioEnded a => alterAudio a pause
  | NavigateAway => navigate Elsewhere
  end.

(** One event.  On a mounted screen the handler runs, then either the
    screen is left and torn down, or the commit runs its effects.  Once
    the screen is gone only pending completions remain; what they do to
    the browser stays, their [set...] calls reach no component. *)
Definition step (e : Event) (w : World) : option World :=
  if enabled e w then
    let w1 := exec (handle e) w in
    if mounted w then
      if mounted w1 then Some (exec (flushEffects (ui w)) w1)
      else Some (exec unmount w1)
    else Some (with_ui (ui w) w1)
  else None.

Fixpoint run (es : list Event) (w : World) : option World :=
  match es with
  | [] => Some w
  | e :: es' =>
      match step e w with
      | Some w' => run es' w'
      | None => None
      end
  end.

End Component.

(** *** The stage of the session that a world is in *)

Inductive Stage :=
| AwaitingAnswer
| RecordingAnswer
| Submitting
| Responding
| Finished.

Definition stage_of (w : World) : Stage :=
  match route w with
  | TalkRoute =>
      if showResponse (ui w) then Responding
      else if (0 <? inFlight w)%nat then Submitting
      else if isRecording (ui w) then RecordingAnswer
      else AwaitingAnswer
  | _ => Finished
  end.

End TalkScreen.

(** ** DrawScreen.jsx *)

Module DrawScreen.

(** The JSON body that [POST /analyze-drawing] answers with; a field the
    server leaves out reads as [undefined]. *)
Record AnalysisResult := mkAnalysis {
  ar_question : Js.value;
  ar_drawingId : Js.value;
  ar_questionId : Js.value;
  ar_questionAudio : Js.value
}.

Inductive FetchOutcome :=
| Rejected
| Resolved (ok : bool) (json : option AnalysisResult).

(** The multipart body of [POST /analyze-drawing]. *)
Record FormData := mkForm {
  fd_image : Blob;
  fd_prompt : string
}.

Record State := mkState {
  capturedImage : option string;
  isLoading : bool;
  error : option string;
  showCamera : bool
}.

Definition initialState : State := mkState None false None false.

(** A call of [handleNext] that is suspended at one of its [await]s. *)
Inductive Suspended :=
| AtConversion     (* await fetch(data:image/jpeg;base64,...) *)
| AtAnalysis.      (* await fetch(.../analyze-drawing) *)

Record World := mkWorld {
  ui : State;
  talk : option TalkScreen.LocationState;  (* set by navigate('/talk', {state}) *)
  suspended : list Suspended;
  requests : list FormData
}.

Definition initialWorld : World := mkWorld initialState None [] [].

Definition with_ui v (w : World) : World :=
  let '(mkWorld _ b c d) := w in mkWorld v b c d.
Definition with_talk v (w : World) : World :=
  let '(mkWorld a _ c d) := w in mkWorld a v c d.
Definition with_suspended v (w : World) : World :=
  let '(mkWorld a b _ d) := w in mkWorld a b v d.
Definition with_requests v (w : World) : World :=
  let '(mkWorld a b c _) := w in mkWorld a b c v.

Definition M := Handler World.

Definition setCapturedImage (v : option string) : M unit :=
  modify (λ w, with_ui (mkState v (isLoading (ui w)) (error (ui w)) (showCamera (ui w))) w).
Definition setIsLoading (v : bool) : M unit :=
  modify (λ w, with_ui (mkState (capturedImage (ui w)) v (error (ui w)) (showCamera (ui w))) w).
Definition setError (v : option string) : M unit :=
  modify (λ w, with_ui (mkState (capturedImage (ui w)) (isLoading (ui w)) v (showCamera (ui w))) w).
Definition setShowCamera (v : bool) : M unit :=
  modify (λ w, with_ui (mkState (capturedImage (ui w)) (isLoading (ui w)) (error (ui w)) v) w).

(** The state that [navigate('/talk', {state})] hands to the talk screen. *)
Definition talkState (r : AnalysisResult) : TalkScreen.LocationState :=
  TalkScreen.mkLoc (ar_question r) (ar_questionAudio r) (ar_drawingId r) (ar_questionId r).

Section Component.

(** [location.state?.prompt || ''], set by the prompt screen. *)
Variable prompt : string.

(** [capture]; [shot] is what [getScreenshot()] returns. *)
Definition capture (shot : option string) : M unit :=
  try_catch
    (setCapturedImage shot;;
     setShowCamera false;;
     setError None)
    (λ _, setError (Some "Could not capture image. Please try again.")).

Definition handleNext_catch : string → M unit :=
  λ _, setError (Some "Could not analyze your drawing. Please try again.").

Definition suspend (s : Suspended) : M unit :=
  modify (λ w, with_suspended (suspended w ++ [s]) w);;
  await.

(** [handleNext] up to its first [await]. *)
Definition handleNext : M unit :=
  image ← get (λ w, capturedImage (ui w));
  if negb (Js.truthy_str image) then ret tt
  else
    try_finally
      (try_catch
         (setIsLoading true;;
          setError None;;
          suspend AtConversion)
         handleNext_catch)
      (setIsLoading false).

(** [handleNext] once the image data has been turned into a blob, or
    once that has failed. *)
Definition handleNext_converted (blob : option Blob) : M unit :=
  try_finally
    (try_catch
       (match blob with
        | None => throw "TypeError: Failed to fetch"
        | Some image =>
            modify (λ w, with_requests (requests w ++ [mkForm image prompt]) w);;
            suspend AtAnalysis
        end)
       handleNext_catch)
    (setIsLoading false).

(** [handleNext] once the analysis request has settled. *)
Definition handleNext_analyzed (r : FetchOutcome) : M unit :=
  try_finally
    (try_catch
       (analysisResult ← match r with
                         | Rejected => throw "TypeError: Failed to fetch"
                         | Resolved false _ => throw "Failed to analyze image"
                         | Resolved true None => throw "SyntaxError"
                         | Resolved true (Some result) => ret result
                         end;
        modify (with_talk (Some (talkState analysisResult))))
       handleNext_catch)
    (setIsLoading false).

Definition retake : M unit :=
  setCapturedImage None;;
  setError None;;
  setShowCamera true.

Definition startCamera : M unit :=
  setShowCamera true;;
  setError None.

Inductive Event :=
| ClickStartCamera
| ClickCapture (shot : option string)
| ClickRetake
| ClickNext
| ImageConverted (i : nat) (blob : option Blob)
| AnalysisSettled (i : nat) (r : FetchOutcome).

Definition mounted (w : World) : bool :=
  match talk w with None => true | Some _ => false end.

(** [disabled={!capturedImage || isLoading}] of the next button. *)
Definition nextDisabled (s : State) : bool :=
  negb (Js.truthy_str (capturedImage s)) || isLoading s.

Definition enabled (e : Event) (w : World) : bool :=
  match e with
  | ClickStartCamera =>
      mounted w && negb (Js.truthy_str (capturedImage (ui w))) && negb (showCamera (ui w))
  | ClickCapture _ =>
      mounted w && negb (Js.truthy_str (capturedImage (ui w))) && showCamera (ui w)
  | ClickRetake => mounted w && Js.truthy_str (capturedImage (ui w))
  | ClickNext => mounted w && negb (nextDisabled (ui w))
  | ImageConverted i _ =>
      match suspended w !! i with Some AtConversion => true | _ => false end
  | AnalysisSettled i _ =>
      match suspended w !! i with Some AtAnalysis => true | _ => false end
  end.

Definition handle (e : Event) : M unit :=
  match e with
  | ClickStartCamera => startCamera
  | ClickCapture shot => capture shot
  | ClickRetake => retake
  | ClickNext => handleNext
  | ImageConverted i blob =>
      modify (λ w, with_suspended (delete i (suspended w)) w);;
      handleNext_converted blob
  | AnalysisSettled i r =>
      modify (λ w, with_suspended (delete i (suspended w)) w);;
      handleNext_analyzed r
  end.

(** One event; once the screen has navigated away, the [set...] calls of
    a late completion reach no component. *)
Definition step (e : Event) (w : World) : option World :=
  if enabled e w then
    let w1 := exec (handle e) w in
    Some (if mounted w then w1 else with_ui (ui w) w1)
  else None.

Fixpoint run (es : list Event) (w : World) : option World :=
  match es with
  | [] => Some w
  | e :: es' =>
      match step e w with
      | Some w' => run es' w'
      | None => None
      end
  end.

(** Analysis requests that have not settled. *)
Definition analysesInFlight (w : World) : nat :=
  length (List.filter (λ s, match s with AtAnalysis => true | AtConversion => false end)
            (suspended w)).

End Component.

End DrawScreen.

(** ** App.jsx with the parental-consent gate, and ParentalConsent.jsx *)

Module App.

(** Times are [Date] time values: milliseconds since the epoch, in UTC. *)
Definition msPerDay : Z := 86400000.

(** The time zone of the browser, as ECMAScript has it: [LocalTime] takes
    a time value to local time, [UTC] takes a local time back to a time
    value. *)
Class TimeZone := {
  LocalTime : Z → Z;
  UTC : Z → Z
}.

(** [d.setDate(d.getDate() + days)] on the time value [t].  The date is
    taken apart in local time, the day is moved and the time within the
    day is kept ([MakeDay], which carries over the ends of a month, and
    [MakeDate]), and the result goes back through [UTC]: the same time
    on the clock, [days] calendar days away. *)
Definition setDate {zone : TimeZone} (t : Z) (days : Z) : Z :=
  UTC (LocalTime t + days * msPerDay).

(** The consent record.  [consentDate] is the time value of
    [new Date(consent.consentDate)]; [None] stands for an invalid date. *)
Record Consent := mkConsent {
  parentName : string;
  email : string;
  childAge : Js.value;
  consentDate : option Z;
  sessionId : string
}.

(** What [localStorage] holds under ['parentalConsent']: the empty
    string, a string on which the [try] block throws, or the JSON of a
    record. *)
Inductive Stored :=
| Empty
| Unparsable
| Json (c : Consent).

Record World := mkWorld {
  hasConsent : bool;
  consentData : option Consent;
  showConsent : bool;
  storage : option Stored;
  alerts : list string
}.

(** The state of a fresh process over what the browser has stored. *)
Definition start (stored : option Stored) : World :=
  mkWorld false None false stored [].

Definition M := Handler World.

Definition setHasConsent (v : bool) : M unit :=
  modify (λ w, mkWorld v (consentData w) (showConsent w) (storage w) (alerts w)).
Definition setConsentData (v : option Consent) : M unit :=
  modify (λ w, mkWorld (hasConsent w) v (showConsent w) (storage w) (alerts w)).
Definition setShowConsent (v : bool) : M unit :=
  modify (λ w, mkWorld (hasConsent w) (consentData w) v (storage w) (alerts w)).
Definition setItem (v : option Stored) : M unit :=
  modify (λ w, mkWorld (hasConsent w) (consentData w) (showConsent w) v (alerts w)).
Definition alert (msg : string) : M unit :=
  modify (λ w, mkWorld (hasConsent w) (consentData w) (showConsent w) (storage w)
                 (alerts w ++ [msg])).

(** [a > b] on dates, where [a] may be invalid: a comparison with [NaN]
    is false. *)
Definition laterThan (a : option Z) (b : Z) : bool :=
  match a with
  | Some t => b <? t
  | None => false
  end.

Section ConsentCheck.
Context {zone : TimeZone}.

(** The consent-check effect (lines 15-41), run once after the first
    render; [now] is the value of [new Date()]. *)
Definition consentCheck (now : Z) : M unit :=
  storedConsent ← get storage;
  match storedConsent with
  | Some Empty | None => setShowConsent true
  | Some stored =>
      try_catch
        (consent ← match stored with
                   | Json c => ret c
                   | _ => throw "SyntaxError"
                   end;
         let thirtyDaysAgo := setDate now (-30) in
         if laterThan (consentDate consent) thirtyDaysAgo then
           setHasConsent true;;
           setConsentData (Some consent)
         else
           setItem None;;
           setShowConsent true)
        (λ _, setShowConsent true)
  end.

End ConsentCheck.

Definition handleConsentGiven (consent : Consent) : M unit :=
  setHasConsent true;;
  setConsentData (Some consent);;
  setShowConsent false.

Definition handleConsentDenied : M unit :=
  setHasConsent false;;
  setConsentData None;;
  setShowConsent false;;
  alert "Parental consent is required to use this app. Please contact the administrator.".

Inductive View := ConsentForm | MainApp | ConsentRequired.

Definition render (w : World) : View :=
  if showConsent w then ConsentForm
  else if hasConsent w then MainApp
  else ConsentRequired.

(** The fields of the consent form. *)
Record Form := mkForm {
  f_parentName : string;
  f_email : string;
  f_childAge : string;
  f_agreedToTerms : bool
}.

Section ParentalConsent.
Context {browser : Browser}.

(** [handleConsent] of the form (ParentalConsent.jsx, lines 12-28);
    [created] is the value of [new Date()] and [stamped] that of
    [Date.now()]. *)
Definition handleConsent (f : Form) (created stamped : Z) : M unit :=
  if Js.truthy (Js.Str (f_parentName f)) && Js.truthy (Js.Str (f_email f))
     && Js.truthy (Js.Str (f_childAge f)) && f_agreedToTerms f
  then
    let consentData :=
      mkConsent (f_parentName f) (f_email f) (parseInt (Js.Str (f_childAge f)))
        (Some created) ("session_" +:+ pretty stamped) in
    setItem (Some (Json consentData));;
    handleConsentGiven consentData
  else alert "Please fill in all required fields and agree to the terms.".

End ParentalConsent.


(** The zone has no clock change to show between [now] and the same time
    on the clock thirty days before: local time is [off] ahead of UTC at
    [now], and the local time thirty days before is read with the same
    [off]. *)
Definition sameOffset {zone : TimeZone} (now : Z) : Prop :=
  ∃ off, LocalTime now = now + off
         ∧ UTC (now + off - 30 * msPerDay) = now + off - 30 * msPerDay - off.

(** *** The consent screens as events *)

(** [isFormValid], which enables the consent button of the form. *)
Definition isFormValid (f : Form) : bool :=
  Js.truthy (Js.Str (f_parentName f)) && Js.truthy (Js.Str (f_email f))
  && Js.truthy (Js.Str (f_childAge f)) && f_agreedToTerms f.

Inductive Event :=
| GiveConsent (f : Form) (created stamped : Z)   (* "Give Consent & Continue" *)
| DenyAccess                                      (* "Deny Access" *)
| ContinueToForm.                                 (* "Continue to Consent Form" *)

(** The form is on screen while [showConsent] holds; the page with the
    continue button shows when neither it nor the app does. *)
Definition enabled (e : Event) (w : World) : bool :=
  match e with
  | GiveConsent f _ _ => showConsent w && isFormValid f
  | DenyAccess => showConsent w
  | ContinueToForm => negb (showConsent w) && negb (hasConsent w)
  end.

(** A fresh process: the state after the consent-check effect. *)
Definition boot {zone : TimeZone} (now : Z) (stored : option Stored) : World :=
  exec (consentCheck now) (start stored).

Section Flow.
Context {browser : Browser}.

Definition handle (e : Event) : M unit :=
  match e with
  | GiveConsent f created stamped => handleConsent f created stamped
  | DenyAccess => handleConsentDenied
  | ContinueToForm => setShowConsent true
  end.

Definition step (e : Event) (w : World) : option World :=
  if enabled e w then Some (exec (handle e) w) else None.

Fixpoint run (es : list Event) (w : World) : option World :=
  match es with
  | [] => Some w
  | e :: es' =>
      match step e w with
      | Some w' => run es' w'
      | None => None
      end
  end.

End Flow.

End App.

(** ** PromptScreen.jsx *)

Module PromptScreen.

(** What [fetch('/prompt')] settles with: a rejection, or a response whose
    body yields the value of [data.prompt] ([undefined] when the field is
    missing), or a body on which [response.json()] or the read of the
    field throws. *)
Inductive FetchOutcome :=
| Rejected
| Resolved (ok : bool) (prompt : option Js.value).

Record State := mkState {
  prompt : Js.value;
  isLoading : bool;
  error : option string
}.

Definition initialState : State := mkState (Js.Str "") true None.

Record World := mkWorld {
  ui : State;
  draw : option Js.value;   (* the prompt of navigate('/draw', {state: {prompt}}) *)
  inFlight : nat;           (* prompt requests not yet settled *)
  fetched : nat             (* prompt requests issued *)
}.

Definition initialWorld : World := mkWorld initialState None 0 0.

Definition M := Handler World.

Definition setPrompt (v : Js.value) : M unit :=
  modify (λ w, mkWorld (mkState v (isLoading (ui w)) (error (ui w)))
                 (draw w) (inFlight w) (fetched w)).
Definition setIsLoading (v : bool) : M unit :=
  modify (λ w, mkWorld (mkState (prompt (ui w)) v (error (ui w)))
                 (draw w) (inFlight w) (fetched w)).
Definition setError (v : option string) : M unit :=
  modify (λ w, mkWorld (mkState (prompt (ui w)) (isLoading (ui w)) v)
                 (draw w) (inFlight w) (fetched w)).

Definition navigateToDraw (p : Js.value) : M unit :=
  modify (λ w, mkWorld (ui w) (Some p) (inFlight w) (fetched w)).

Definition fetchPrompt_catch : string → M unit :=
  λ _, setError (Some "Oops! Could not get your drawing idea. Try again?").

(** [fetchPrompt] up to its [await]. *)
Definition fetchPrompt : M unit :=
  try_finally
    (try_catch
       (setIsLoading true;;
        setError None;;
        modify (λ w, mkWorld (ui w) (draw w) (S (inFlight w)) (S (fetched w)));;
        await)
       fetchPrompt_catch)
    (setIsLoading false).

(** [fetchPrompt] once the request has settled. *)
Definition fetchPrompt_resume (r : FetchOutcome) : M unit :=
  try_finally
    (try_catch
       (data_prompt ← match r with
                      | Rejected => throw "TypeError: Failed to fetch"
                      | Resolved false _ => throw "Failed to fetch prompt"
                      | Resolved true None => throw "SyntaxError"
                      | Resolved true (Some p) => ret p
                      end;
        setPrompt data_prompt)
       fetchPrompt_catch)
    (setIsLoading false).

Definition handleRetry : M unit := call_async fetchPrompt.

Definition handleStart : M unit :=
  p ← get (λ w, prompt (ui w));
  if Js.truthy p then navigateToDraw p else ret tt.

(** The effect of the first render. *)
Definition mount : World := exec (call_async fetchPrompt) initialWorld.

Inductive Event :=
| PromptSettled (r : FetchOutcome)
| ClickRetry      (* "Try Again" of the error view, "Get Another Idea" of the content *)
| ClickStart.

Definition mounted (w : World) : bool :=
  match draw w with None => true | Some _ => false end.

(** The spinner hides every button; the error view has the retry button
    only. *)
Definition enabled (e : Event) (w : World) : bool :=
  match e with
  | PromptSettled _ => (0 <? inFlight w)%nat
  | ClickRetry => mounted w && negb (isLoading (ui w))
  | ClickStart =>
      mounted w && negb (isLoading (ui w)) && negb (Js.truthy_str (error (ui w)))
  end.

Definition handle (e : Event) : M unit :=
  match e with
  | PromptSettled r =>
      modify (λ w, mkWorld (ui w) (draw w) (pred (inFlight w)) (fetched w));;
      fetchPrompt_resume r
  | ClickRetry => handleRetry
  | ClickStart => handleStart
  end.

Definition step (e : Event) (w : World) : option World :=
  if enabled e w then
    let w1 := exec (handle e) w in
    Some (if mounted w then w1
          else mkWorld (ui w) (draw w1) (inFlight w1) (fetched w1))
  else None.

Fixpoint run (es : list Event) (w : World) : option World :=
  match es with
  | [] => Some w
  | e :: es' =>
      match step e w with
      | Some w' => run es' w'
      | None => None
      end
  end.

End PromptScreen.

(** * Properties *)

(** ** Relations that every handler built from respecting parts respects *)

Section Respects.
Context {W : Type} (R : W → W → Prop) {HR : PreOrder R}.

Definition respects {A} (m : Handler W A) : Prop := ∀ w, R w (exec m w).

Lemma respects_ret {A} (a : A) : respects (ret a).
Proof. intros w. reflexivity. Qed.

Lemma respects_throw {A} msg : respects (throw (A := A) msg).
Proof. intros w. reflexivity. Qed.

Lemma respects_await : respects await.
Proof. intros w. reflexivity. Qed.

Lemma respects_get {A} (f : W → A) : respects (get f).
Proof. intros w. reflexivity. Qed.

Lemma respects_bind {A B} (m : Handler W A) (k : A → Handler W B) :
  respects m → (∀ a, respects (k a)) → respects (m ≫= k).
Proof.
  intros Hm Hk w. specialize (Hm w).
  unfold exec, mbind, handler_bind, bind in *.
  destruct (m w) as [[a|e|] w1]; simpl in *; trivial.
  transitivity w1; [exact Hm | apply Hk].
Qed.

Lemma respects_try_catch body handler :
  respects body → (∀ e, respects (handler e)) → respects (try_catch body handler).
Proof.
  intros Hb Hh w. specialize (Hb w).
  unfold exec, try_catch in *.
  destruct (body w) as [[a|e|] w1]; simpl in *; trivial.
  transitivity w1; [exact Hb | apply Hh].
Qed.

Lemma respects_try_finally body final :
  respects body → respects final → respects (try_finally body final).
Proof.
  intros Hb Hf w. specialize (Hb w).
  unfold exec, try_finally in *.
  destruct (body w) as [[a|e|] w1]; simpl in *; trivial.
  - transitivity w1; [exact Hb | apply Hf].
  - specialize (Hf w1). unfold exec in Hf.
    destruct (final w1) as [[a|e'|] w2]; simpl in *;
      (transitivity w1; [exact Hb | exact Hf]).
Qed.

Lemma respects_when b m : respects m → respects (when b m).
Proof. intros Hm. destruct b; [exact Hm | apply respects_ret]. Qed.

Lemma respects_call_async m : respects m → respects (call_async m).
Proof. intros Hm w. apply Hm. Qed.

End Respects.

(** ** Handlers that run to their end *)

Section Returns.
Context {W : Type}.

Definition returns {A} (m : Handler W A) : Prop := ∀ w, ∃ a, fst (m w) = Returned a.

Lemma returns_ret {A} (a : A) : returns (ret (W := W) a).
Proof. intros w. exists a. reflexivity. Qed.

Lemma returns_get {A} (f : W → A) : returns (get f).
Proof. intros w. exists (f w). reflexivity. Qed.

Lemma returns_modify (f : W → W) : returns (modify f).
Proof. intros w. exists (). reflexivity. Qed.

Lemma returns_call_async (m : Handler W unit) : returns (call_async m).
Proof. intros w. exists (). reflexivity. Qed.

Lemma returns_bind {A B} (m : Handler W A) (k : A → Handler W B) :
  returns m → (∀ a, returns (k a)) → returns (m ≫= k).
Proof.
  intros Hm Hk w. destruct (Hm w) as [a Ha].
  unfold mbind, handler_bind, bind.
  destruct (m w) as [o w1]. simpl in Ha. subst o. apply Hk.
Qed.

Lemma returns_when b (m : Handler W unit) : returns m → returns (when b m).
Proof. intros Hm. destruct b; [exact Hm | apply returns_ret]. Qed.

(** Sequencing after a handler that returns is composition of worlds. *)
Lemma exec_seq {B} (m : Handler W unit) (k : unit → Handler W B) w :
  returns m → exec (m ≫= k) w = exec (k ()) (exec m w).
Proof.
  intros Hm. destruct (Hm w) as [[] Ha].
  unfold exec, mbind, handler_bind, bind.
  destruct (m w) as [o w1]. simpl in Ha. subst o. reflexivity.
Qed.

End Returns.

Ltac returns_structure :=
  repeat match goal with
    | |- returns (_ ≫= _) => refine (returns_bind _ _ _ _); [| intros ?]
    | |- returns (when _ _) => refine (returns_when _ _ _)
    | |- returns (call_async _) => refine (returns_call_async _)
    | |- returns (ret _) => refine (returns_ret _)
    | |- returns (get _) => refine (returns_get _)
    | |- returns (modify _) => refine (returns_modify _)
    | |- returns (if ?b then _ else _) => destruct b
    | |- returns (match ?x with _ => _ end) => destruct x
    | |- returns ((match ?x with _ => _ end) _) => destruct x
    end.

(** Takes a handler apart along its control structure and leaves one goal
    for each primitive it is built from. *)
Ltac respects_structure :=
  repeat match goal with
    | |- respects _ (_ ≫= _) => refine (respects_bind _ _ _ _ _); [| intros ?]
    | |- respects _ (try_catch _ _) => refine (respects_try_catch _ _ _ _ _); [| intros ?]
    | |- respects _ (try_finally _ _) => refine (respects_try_finally _ _ _ _ _)
    | |- respects _ (when false _) => refine (respects_ret _ ())
    | |- respects _ (when _ _) => refine (respects_when _ _ _ _)
    | |- respects _ (call_async _) => refine (respects_call_async _ _ _)
    | |- respects _ (ret _) => refine (respects_ret _ _)
    | |- respects _ (throw _) => refine (respects_throw _ _)
    | |- respects _ await => refine (respects_await _)
    | |- respects _ (get _) => refine (respects_get _ _)
    | |- respects _ (if ?b then _ else _) => destruct b
    | |- respects _ (match ?x with _ => _ end) => destruct x
    | |- respects _ ((match ?x with _ => _ end) _) => destruct x
    | |- respects _ _ => progress cbv zeta
    end.

(** ** The talk screen *)

Module TalkScreenFacts.
Import TalkScreen.

Section Facts.
Context {browser : Browser}.
Variable loc : option LocationState.

(** *** What a click needs *)

Lemma click_enabled w :
  mounted w && contentRendered (ui w) && negb (showResponse (ui w))
    && negb (isLoading (ui w)) = true →
  route w = TalkRoute ∧ isLoading (ui w) = false
  ∧ Js.truthy_str (error (ui w)) = false ∧ showResponse (ui w) = false.
Proof.
  unfold mounted, contentRendered.
  destruct (route w), (isLoading (ui w)), (Js.truthy_str (error (ui w))),
    (showResponse (ui w)); simpl; intros; try discriminate; auto.
Qed.

(** While the loading flag is up neither button can be clicked. *)
Lemma loading_disables_buttons w :
  isLoading (ui w) = true →
  enabled ClickTalk w = false ∧ enabled ClickFinish w = false.
Proof.
  intros H. unfold enabled. rewrite H. simpl.
  rewrite !andb_false_r. auto.
Qed.

(** *** The shape of a step *)

Lemma step_staying e w :
  enabled e w = true → mounted w = true → mounted (exec (handle loc e) w) = true →
  step loc e w = Some (exec (flushEffects loc (ui w)) (exec (handle loc e) w)).
Proof. intros He Hm Hm'. unfold step. rewrite He, Hm, Hm'. reflexivity. Qed.

Lemma step_leaving e w :
  enabled e w = true → mounted w = true → mounted (exec (handle loc e) w) = false →
  step loc e w = Some (exec unmount (exec (handle loc e) w)).
Proof. intros He Hm Hm'. unfold step. rewrite He, Hm, Hm'. reflexivity. Qed.

(** Unfolds the handler combinators and the record updates, so that a
    handler applied to a world in constructor form computes. *)
Ltac run_handler :=
  cbv [exec fst snd mbind handler_bind bind mret handler_ret ret throw await get modify
       try_catch try_finally when call_async
       setUi setIsRecording setRecordedChunks setMediaRecorder setIsLoading setError
       setQuestion setQuestionAudio setHasRecording setResponse setResponseAudio
       setShowResponse setQuestionAudioPlayed navigate createObjectURL
       with_isRecording with_recordedChunks with_mediaRecorder with_isLoading with_error
       with_question with_questionAudio with_hasRecording with_response
       with_responseAudio with_showResponse with_questionAudioPlayed
       with_ui with_route with_recorders with_micPending with_requests with_inFlight
       with_objectUrls with_audioRef with_responseAudioRef with_playLog
       with_audios with_playStarts
       ui route recorders micPending requests inFlight objectUrls audioRef
       responseAudioRef playLog audios playStarts
       isRecording recordedChunks mediaRecorder isLoading error question questionAudio
       hasRecording response responseAudio showResponse questionAudioPlayed];
  cbn [negb].

(** *** What a handler leaves alone *)

Definition keeps {A} (f : World → A) (w w' : World) : Prop := f w' = f w.

#[local] Instance keeps_preorder {A} (f : World → A) : PreOrder (keeps f).
Proof. split; unfold keeps; [intros w | intros a b c]; congruence. Qed.

Ltac keeps_leaf :=
  intros [[] ]; cbv; reflexivity.

(** Proves that a handler keeps a projection, primitive by primitive. *)
Ltac keeps_tac :=
  unfold handleTalkClick, stopRecording, startRecording, startRecording_resume,
    handleFinish, handleFinish_resume, handleFinish_catch, postTranscribeAnswer,
    handleContinue, getQuestion, playAudio_resume,
    playEffect, playAudio, playAudio_catch, responseEffect, attachRefs,
    unmount, detachRefs, cleanup, recorder_stopped, recorder_stop, ondataavailable,
    onstop, alterRecorder, alterAudio;
  respects_structure; try keeps_leaf.

Ltac returns_tac :=
  unfold playEffect, responseEffect, attachRefs, stopRecording,
    unmount, cleanup, detachRefs, recorder_stopped, recorder_stop, ondataavailable,
    onstop, alterRecorder, alterAudio,
    setRecordedChunks, setHasRecording, setIsRecording, setUi;
  returns_structure.

Lemma recorder_stop_returns i : returns (recorder_stop i).
Proof. returns_tac. Qed.

Lemma cleanup_returns mr : returns (cleanup mr).
Proof. returns_tac. Qed.

Lemma detachRefs_returns : returns detachRefs.
Proof. returns_tac. Qed.

Lemma attachRefs_returns : returns attachRefs.
Proof. returns_tac. Qed.

Lemma playEffect_returns : returns playEffect.
Proof. returns_tac. Qed.

Lemma exec_then (m : M unit) (k : unit → M unit) w :
  returns m → exec (m ≫= k) w = exec (k ()) (exec m w).
Proof. apply exec_seq. Qed.

Lemma exec_get {A} (f : World → A) (k : A → M unit) w :
  exec (get f ≫= k) w = exec (k (f w)) w.
Proof. reflexivity. Qed.

Lemma recorderEffect_returns old : returns (recorderEffect loc old).
Proof.
  unfold recorderEffect. returns_structure;
    [apply cleanup_returns | apply attachRefs_returns].
Qed.

(** *** Commits that change no dependency run no effect *)

(** A commit touches the elements and the refs, nothing else. *)
Lemma attachRefs_frame w :
  let w' := exec attachRefs w in
  ui w' = ui w ∧ route w' = route w ∧ recorders w' = recorders w
  ∧ micPending w' = micPending w ∧ requests w' = requests w
  ∧ inFlight w' = inFlight w ∧ playLog w' = playLog w.
Proof.
  assert (H : respects (keeps (λ w, (ui w, route w, recorders w, micPending w,
                                      requests w, inFlight w, playLog w))) attachRefs)
    by keeps_tac.
  specialize (H w). unfold keeps in H. cbv zeta.
  injection H as -> -> -> -> -> -> ->. repeat split.
Qed.

Lemma flushEffects_same old w :
  mediaRecorder (ui w) = mediaRecorder old →
  questionAudio (ui w) = questionAudio old →
  questionAudioPlayed (ui w) = questionAudioPlayed old →
  responseAudio (ui w) = responseAudio old →
  exec (flushEffects loc old) w = exec attachRefs w.
Proof.
  intros Hm Hq Hp Hr.
  destruct (attachRefs_frame w) as (Hui & _).
  unfold flushEffects.
  rewrite exec_then by apply attachRefs_returns.
  rewrite exec_then by apply recorderEffect_returns.
  assert (Hrec : ∀ x, ui x = ui w → exec (recorderEffect loc old) x = x).
  { intros x Hx. unfold recorderEffect. rewrite exec_get.
    rewrite Hx, Hm, bool_decide_eq_false_2 by tauto. reflexivity. }
  rewrite Hrec by exact Hui.
  unfold audioEffects. rewrite exec_get.
  rewrite Hui, Hq, Hp, Hr, !bool_decide_eq_false_2 by tauto.
  reflexivity.
Qed.


(** *** Finishing without identifiers *)

Lemma handleFinish_missing_ids w :
  isLoading (ui w) = false →
  hasRecording (ui w) = true →
  Js.truthy (loc_drawingId (orEmpty loc)) = false
  ∨ Js.truthy (loc_questionId (orEmpty loc)) = false →
  exec (handleFinish loc) w
  = with_ui (with_error (Some "Missing drawing or question ID.") (ui w)) w.
Proof.
  intros Hl Hr Hid.
  assert (Hc : negb (Js.truthy (loc_drawingId (orEmpty loc)))
               || negb (Js.truthy (loc_questionId (orEmpty loc)))
               || Js.is_zero (loc_drawingId (orEmpty loc))
               || Js.is_zero (loc_questionId (orEmpty loc)) = true).
  { destruct Hid as [-> | ->]; simpl; rewrite ?orb_true_r; reflexivity. }
  destruct w as [[] ]. simpl in Hl, Hr. subst.
  unfold handleFinish. run_handler. rewrite Hc. reflexivity.
Qed.

(** C10: finishing with a recording while the navigation state carries
    no usable drawingId or questionId (missing, null, 0, or any other
    falsy value) issues no request: the handler sets the error
    'Missing drawing or question ID.', every other state cell, the
    recorders and the request log are as before, and the screen is
    still the talk screen. *)
Theorem C10_missing_ids_no_request w :
  enabled ClickFinish w = true →
  hasRecording (ui w) = true →
  Js.truthy (loc_drawingId (orEmpty loc)) = false
  ∨ Js.truthy (loc_questionId (orEmpty loc)) = false →
  ∃ w', step loc ClickFinish w = Some w'
    ∧ ui w' = with_error (Some "Missing drawing or question ID.") (ui w)
    ∧ requests w' = requests w ∧ inFlight w' = inFlight w
    ∧ recorders w' = recorders w ∧ route w' = TalkRoute.
Proof.
  intros He Hr Hid.
  destruct (click_enabled w He) as (Hroute & Hl & _ & _).
  pose proof (handleFinish_missing_ids w Hl Hr Hid) as Hw1.
  assert (Hm : mounted w = true) by (unfold mounted; rewrite Hroute; reflexivity).
  eexists. split.
  - apply step_staying; [exact He | exact Hm |].
    simpl. rewrite Hw1. destruct w as [[] ]. exact Hm.
  - simpl handle. rewrite Hw1.
    rewrite flushEffects_same by (destruct w as [[] ]; reflexivity).
    destruct (attachRefs_frame
                (with_ui (with_error (Some "Missing drawing or question ID.") (ui w)) w))
      as (-> & -> & -> & _ & -> & -> & _).
    destruct w as [[] ]. simpl in Hroute. repeat split; assumption.
Qed.

(** *** Finishing with a recording *)

Lemma truthy_not_zero v : Js.truthy v = true → Js.is_zero v = false.
Proof. destruct v as [| | |[]|]; simpl; intros; congruence. Qed.

Lemma handleFinish_submits w :
  isLoading (ui w) = false →
  hasRecording (ui w) = true →
  Js.truthy (loc_drawingId (orEmpty loc)) = true →
  Js.truthy (loc_questionId (orEmpty loc)) = true →
  exec (handleFinish loc) w
  = with_inFlight (S (inFlight w))
      (with_requests
         (requests w ++ [mkForm (newBlob (recordedChunks (ui w)))
                           (parseInt (loc_drawingId (orEmpty loc)))
                           (parseInt (loc_questionId (orEmpty loc)))])
         (with_ui (with_error None (with_isLoading true (ui w))) w)).
Proof.
  intros Hl Hr Hd Hq.
  destruct w as [[] ]. simpl in Hl, Hr. subst.
  unfold handleFinish, postTranscribeAnswer. run_handler.
  rewrite Hd, Hq, !truthy_not_zero by assumption. reflexivity.
Qed.

(** C7: finishing with a completed recording whose chunk list is empty
    submits all the same: with usable identifiers, one
    transcribe request goes out carrying the empty blob, and the session
    is submitting. *)
Theorem C7_empty_recording_is_submitted w :
  enabled ClickFinish w = true →
  hasRecording (ui w) = true →
  recordedChunks (ui w) = [] →
  Js.truthy (loc_drawingId (orEmpty loc)) = true →
  Js.truthy (loc_questionId (orEmpty loc)) = true →
  ∃ w' body, step loc ClickFinish w = Some w'
    ∧ requests w' = requests w ++ [body]
    ∧ fd_audio body = newBlob [] ∧ blob_size (fd_audio body) = 0%nat
    ∧ inFlight w' = S (inFlight w)
    ∧ stage_of w' = Submitting.
Proof.
  intros He Hr Hc Hd Hq.
  destruct (click_enabled w He) as (Hroute & Hl & _ & Hs).
  pose proof (handleFinish_submits w Hl Hr Hd Hq) as Hw1.
  assert (Hm : mounted w = true) by (unfold mounted; rewrite Hroute; reflexivity).
  eexists. eexists. split.
  - apply step_staying; [exact He | exact Hm |].
    simpl. rewrite Hw1. destruct w as [[] ]. exact Hm.
  - simpl handle. rewrite Hw1, Hc.
    rewrite flushEffects_same by (destruct w as [[] ]; reflexivity).
    match goal with |- context [exec attachRefs ?x] =>
      pose proof (attachRefs_frame x) as (Hu & Hro & _ & _ & Hrq & Hin & _) end.
    unfold stage_of. rewrite Hu, Hro, Hrq, Hin.
    destruct w as [[] ]. simpl in Hroute, Hs. subst. simpl.
    repeat split.
Qed.

(** *** What a handler leaves alone *)

Lemma unmount_keeps_route : respects (keeps route) unmount.
Proof. keeps_tac. Qed.

Lemma unmount_keeps_showResponse : respects (keeps (λ w, showResponse (ui w))) unmount.
Proof. keeps_tac. Qed.

Lemma unmount_keeps_inFlight : respects (keeps inFlight) unmount.
Proof. keeps_tac. Qed.

Lemma unmount_keeps_requests : respects (keeps requests) unmount.
Proof. keeps_tac. Qed.

(** *** A settled request *)

Lemma submitting_inv w :
  stage_of w = Submitting →
  route w = TalkRoute ∧ showResponse (ui w) = false ∧ (0 <? inFlight w)%nat = true.
Proof.
  unfold stage_of.
  destruct (route w), (showResponse (ui w)), (0 <? inFlight w)%nat,
    (isRecording (ui w)); intros; try discriminate; auto.
Qed.

Lemma handleFinish_resume_no_response w result :
  Js.truthy (res_response result) = false →
  exec (handleFinish_resume (Resolved true (Some result))) w
  = with_ui (with_isLoading false (ui w)) (with_route EndRoute w).
Proof.
  intros Hr. destruct w as [[] ].
  unfold handleFinish_resume. run_handler. rewrite Hr. reflexivity.
Qed.

(** C1: in the Submitting stage, a transcribeAnswer call that succeeds
    with no response text (absent, null, or otherwise falsy) takes the
    session straight to Finished: the step navigates to the end screen,
    and the response UI is not shown. *)
Theorem C1_no_response_goes_to_finished w result :
  stage_of w = Submitting →
  Js.truthy (res_response result) = false →
  ∃ w', step loc (FetchSettled (Resolved true (Some result))) w = Some w'
    ∧ stage_of w' = Finished
    ∧ route w' = EndRoute
    ∧ showResponse (ui w') = false.
Proof.
  intros Hs Hr.
  destruct (submitting_inv w Hs) as (Hroute & Hshow & Hin).
  assert (Hm : mounted w = true) by (unfold mounted; rewrite Hroute; reflexivity).
  assert (Hw1 : exec (handle loc (FetchSettled (Resolved true (Some result)))) w
                = with_ui (with_isLoading false (ui w))
                    (with_route EndRoute (with_inFlight (pred (inFlight w)) w))).
  { transitivity (exec (handleFinish_resume (Resolved true (Some result)))
                    (with_inFlight (pred (inFlight w)) w)); [reflexivity |].
    rewrite handleFinish_resume_no_response by exact Hr.
    destruct w as [[] ]. reflexivity. }
  eexists. split.
  - apply step_leaving; [exact Hin | exact Hm |].
    rewrite Hw1. destruct w as [[] ]. reflexivity.
  - rewrite Hw1.
    pose proof (unmount_keeps_route
                  (with_ui (with_isLoading false (ui w))
                     (with_route EndRoute (with_inFlight (pred (inFlight w)) w)))) as Hk1.
    pose proof (unmount_keeps_showResponse
                  (with_ui (with_isLoading false (ui w))
                     (with_route EndRoute (with_inFlight (pred (inFlight w)) w)))) as Hk2.
    unfold keeps in Hk1, Hk2. unfold stage_of. rewrite Hk1, Hk2.
    destruct w as [[] ]. simpl in Hshow. subst. repeat split.
Qed.

Lemma handleFinish_resume_failure w r :
  r = Rejected ∨ (∃ json, r = Resolved false json) →
  exec (handleFinish_resume r) w
  = with_ui (with_isLoading false
               (with_error (Some "Could not save your recording. Try again!") (ui w))) w.
Proof.
  intros [-> | [json ->]]; destruct w as [[] ];
    unfold handleFinish_resume, handleFinish_catch; run_handler; reflexivity.
Qed.

(** C2, as the code has it: in the Submitting stage, a transcribeAnswer
    call that fails (network error or non-ok response) surfaces the error
    'Could not save your recording. Try again!', lowers the loading flag
    and issues no request; the recorded chunks and the has-recording flag
    are left as they were.  With this the only request in flight and no
    recording under way, the session is back in AwaitingAnswer. *)
Theorem C2_failure_keeps_recording w r :
  stage_of w = Submitting →
  r = Rejected ∨ (∃ json, r = Resolved false json) →
  ∃ w', step loc (FetchSettled r) w = Some w'
    ∧ error (ui w') = Some "Could not save your recording. Try again!"
    ∧ isLoading (ui w') = false
    ∧ recordedChunks (ui w') = recordedChunks (ui w)
    ∧ hasRecording (ui w') = hasRecording (ui w)
    ∧ requests w' = requests w
    ∧ (inFlight w = 1%nat → isRecording (ui w) = false → stage_of w' = AwaitingAnswer).
Proof.
  intros Hs Hr.
  destruct (submitting_inv w Hs) as (Hroute & Hshow & Hin).
  assert (Hm : mounted w = true) by (unfold mounted; rewrite Hroute; reflexivity).
  assert (Hw1 : exec (handle loc (FetchSettled r)) w
                = with_ui (with_isLoading false
                             (with_error (Some "Could not save your recording. Try again!")
                                (ui w)))
                    (with_inFlight (pred (inFlight w)) w)).
  { transitivity (exec (handleFinish_resume r) (with_inFlight (pred (inFlight w)) w));
      [reflexivity |].
    rewrite handleFinish_resume_failure by exact Hr.
    destruct w as [[] ]. reflexivity. }
  eexists. split.
  - apply step_staying; [exact Hin | exact Hm |].
    rewrite Hw1. destruct w as [[] ]. exact Hm.
  - rewrite Hw1.
    rewrite flushEffects_same by (destruct w as [[] ]; reflexivity).
    match goal with |- context [exec attachRefs ?x] =>
      pose proof (attachRefs_frame x) as (Hu & Hro & _ & _ & Hrq & Hinf & _) end.
    unfold stage_of. rewrite Hu, Hro, Hrq, Hinf.
    destruct w as [[] ]. simpl in Hroute, Hshow. subst. simpl.
    repeat split. intros -> ->. reflexivity.
Qed.

(** *** A denied microphone *)

Lemma awaiting_inv w :
  stage_of w = AwaitingAnswer →
  route w = TalkRoute ∧ showResponse (ui w) = false
  ∧ inFlight w = 0%nat ∧ isRecording (ui w) = false.
Proof.
  unfold stage_of.
  destruct (route w), (showResponse (ui w)), (inFlight w), (isRecording (ui w));
    simpl; intros; try discriminate; auto.
Qed.

Lemma handle_denied w :
  exec (handle loc UserMediaDenied) w
  = with_ui (with_error (Some "Could not access microphone. Please check permissions.")
               (ui w))
      (with_micPending (pred (micPending w)) w).
Proof.
  destruct w as [[] ]. unfold handle, startRecording_resume. run_handler. reflexivity.
Qed.

(** C8: when getUserMedia rejects an attempt to start recording, the
    session stays in AwaitingAnswer: no recorder is created and none is
    stored, recording does not start, the error 'Could not access
    microphone. Please check permissions.' is set, and the recorded
    chunks and the has-recording flag are what they were before. *)
Theorem C8_denied_microphone_stays_awaiting w :
  stage_of w = AwaitingAnswer →
  (0 < micPending w)%nat →
  ∃ w', step loc UserMediaDenied w = Some w'
    ∧ stage_of w' = AwaitingAnswer
    ∧ isRecording (ui w') = false
    ∧ error (ui w') = Some "Could not access microphone. Please check permissions."
    ∧ mediaRecorder (ui w') = mediaRecorder (ui w)
    ∧ recorders w' = recorders w
    ∧ recordedChunks (ui w') = recordedChunks (ui w)
    ∧ hasRecording (ui w') = hasRecording (ui w).
Proof.
  intros Hs Hp.
  destruct (awaiting_inv w Hs) as (Hroute & Hshow & Hin & Hrec).
  assert (Hm : mounted w = true) by (unfold mounted; rewrite Hroute; reflexivity).
  assert (He : enabled UserMediaDenied w = true)
    by (simpl; apply Nat.ltb_lt; exact Hp).
  eexists. split.
  - apply step_staying; [exact He | exact Hm |].
    rewrite handle_denied. destruct w as [[] ]. exact Hm.
  - rewrite handle_denied.
    rewrite flushEffects_same by (destruct w as [[] ]; reflexivity).
    match goal with |- context [exec attachRefs ?x] =>
      pose proof (attachRefs_frame x) as (Hu & Hro & Hrc & _ & _ & Hinf & _) end.
    unfold stage_of. rewrite Hu, Hro, Hrc, Hinf.
    destruct w as [[] ]. simpl in Hroute, Hshow, Hin, Hrec. subst. simpl.
    repeat split.
Qed.

(** *** Once the question audio has started *)

(** From a world whose already-played flag is set, the flag stays set
    and [playAudio] is not called. *)
Definition playedOnce (w w' : World) : Prop :=
  questionAudioPlayed (ui w) = true →
  questionAudioPlayed (ui w') = true ∧ playLog w' = playLog w.

#[local] Instance playedOnce_preorder : PreOrder playedOnce.
Proof.
  split.
  - intros w H. auto.
  - intros a b c H1 H2 H. destruct (H1 H) as [Hb E1].
    destruct (H2 Hb) as [Hc E2]. split; congruence.
Qed.

Ltac played_leaf :=
  intros [[] ]; cbv; intuition congruence.

Ltac played_tac :=
  unfold handleTalkClick, stopRecording, startRecording, startRecording_resume,
    handleFinish, handleFinish_resume, handleFinish_catch, postTranscribeAnswer,
    handleContinue, getQuestion, playAudio_resume, playAudio_catch,
    responseEffect, attachRefs,
    unmount, detachRefs, cleanup, recorder_stopped, recorder_stop, ondataavailable,
    onstop, alterRecorder, alterAudio;
  respects_structure; try played_leaf.

Lemma playEffect_playedOnce : respects playedOnce playEffect.
Proof.
  intros [[] ]. unfold playedOnce. simpl. intros ->.
  unfold playEffect. run_handler.
  destruct questionAudio0, audioRef0; auto.
Qed.

Lemma handle_playedOnce e : respects playedOnce (handle loc e).
Proof. destruct e; unfold handle; played_tac. Qed.

Lemma flushEffects_playedOnce old : respects playedOnce (flushEffects loc old).
Proof.
  unfold flushEffects, recorderEffect, audioEffects. respects_structure;
    try apply playEffect_playedOnce; played_tac.
Qed.

Lemma unmount_playedOnce : respects playedOnce unmount.
Proof. played_tac. Qed.

Lemma step_playedOnce e w w' : step loc e w = Some w' → playedOnce w w'.
Proof.
  unfold step. destruct (enabled e w); [| discriminate].
  pose proof (handle_playedOnce e w) as H1.
  destruct (mounted w).
  - destruct (mounted (exec (handle loc e) w)); intros [= <-];
      (etransitivity; [exact H1 |]).
    + apply flushEffects_playedOnce.
    + apply unmount_playedOnce.
  - intros [= <-]. intros Hp. destruct (H1 Hp) as [_ Hlog].
    destruct w as [[] ]. destruct (exec (handle loc e) _). simpl in *. auto.
Qed.

(** What the already-played flag does achieve: once it is set it stays
    set, and the play effect calls [playAudio] not once more.  Calls that
    were waiting for their element before are not touched by it. *)
Lemma played_flag_stops_the_trigger es w w' :
  questionAudioPlayed (ui w) = true →
  run loc es w = Some w' →
  questionAudioPlayed (ui w') = true ∧ playLog w' = playLog w.
Proof.
  revert w. induction es as [| e es IH]; intros w Hp; simpl.
  - intros [= <-]. auto.
  - destruct (step loc e w) as [w1 |] eqn:E; [| discriminate].
    intros Hrun. destruct (step_playedOnce e w w1 E Hp) as [Hp1 Hl1].
    destruct (IH w1 Hp1 Hrun) as [Hp' Hl']. split; congruence.
Qed.

(** *** A question without audio *)

(** No audio element has been given a source. *)
Definition unsourced (w : World) : Prop := Forall (λ e, a_src e = None) (audios w).

(** From a world with no question audio, no call of [playAudio] and no
    playback yet, and no source on any element, none appears. *)
Definition silent (w w' : World) : Prop :=
  questionAudio (ui w) = None ∧ playLog w = [] ∧ playStarts w = [] ∧ unsourced w →
  questionAudio (ui w') = None ∧ playLog w' = [] ∧ playStarts w' = [] ∧ unsourced w'.

#[local] Instance silent_preorder : PreOrder silent.
Proof.
  split.
  - intros w H. exact H.
  - intros a b c H1 H2 H. exact (H2 (H1 H)).
Qed.

(** A change to an element that leaves its source alone. *)
Lemma alterAudio_silent a f :
  (∀ e, a_src (f e) = a_src e) → respects silent (alterAudio a f).
Proof.
  intros Hf [[] ]. unfold silent, unsourced. simpl.
  intros (Hq & Hl & Hs & Ha). repeat split; try assumption.
  apply Forall_alter; [exact Ha |]. intros e _ He. rewrite Hf. exact He.
Qed.

(** A new element comes without a source. *)
Lemma newAudio_silent :
  respects silent
    (modify (λ w, with_audioRef (Some (length (audios w)))
                    (with_audios (audios w ++ [freshAudio]) w))).
Proof.
  intros [[] ]. unfold silent, unsourced. simpl.
  intros (Hq & Hl & Hs & Ha). repeat split; try assumption.
  apply Forall_app. split; [exact Ha |]. repeat constructor.
Qed.

(** With no source on any element, a [playAudio] call that settles starts
    no playback. *)
Lemma playAudio_resume_silent a ok : respects silent (playAudio_resume a ok).
Proof.
  intros [[] ]. unfold silent, unsourced. simpl. intros (Hq & Hl & Hs & Ha).
  assert (Hsrc : option_bind _ _ a_src (audios0 !! a) = None).
  { destruct (audios0 !! a) as [e |] eqn:E; [| reflexivity].
    simpl. exact (Forall_lookup_1 _ _ _ _ Ha E). }
  unfold playAudio_resume, playAudio_catch, alterAudio. run_handler.
  destruct ok; rewrite ?Hsrc; simpl; rewrite ?app_nil_r;
    (repeat split; try assumption);
    (apply (Forall_alter (λ e, a_src e = None)); [exact Ha |]; intros e _ He; exact He).
Qed.

Ltac silent_leaf :=
  first [ refine (alterAudio_silent _ _ _); reflexivity
        | refine newAudio_silent
        | intros [[] ]; cbv; intuition congruence ].

Ltac silent_tac :=
  unfold handleTalkClick, stopRecording, startRecording, startRecording_resume,
    handleFinish, handleFinish_resume, handleFinish_catch, postTranscribeAnswer,
    handleContinue, playAudio_catch,
    responseEffect, attachRefs,
    unmount, detachRefs, cleanup, recorder_stopped, recorder_stop, ondataavailable,
    onstop, alterRecorder;
  respects_structure; try silent_leaf.

Lemma playEffect_silent : respects silent playEffect.
Proof.
  intros [[] ]. unfold silent. simpl. intros (-> & Hrest).
  unfold playEffect. run_handler. auto.
Qed.

Section TextOnly.
Hypothesis no_audio : Js.truthy (loc_questionAudio (orEmpty loc)) = false.

Lemma getQuestion_silent : respects silent (getQuestion loc).
Proof.
  unfold getQuestion. rewrite no_audio. silent_tac.
Qed.

Lemma handle_silent e : respects silent (handle loc e).
Proof.
  destruct e; unfold handle;
    first [apply getQuestion_silent | apply playAudio_resume_silent | silent_tac].
Qed.

Lemma flushEffects_silent old : respects silent (flushEffects loc old).
Proof.
  unfold flushEffects, recorderEffect, audioEffects. respects_structure;
    try apply playEffect_silent; try apply getQuestion_silent; silent_tac.
Qed.

Lemma unmount_silent : respects silent unmount.
Proof. silent_tac. Qed.

Lemma step_silent e w w' : step loc e w = Some w' → silent w w'.
Proof.
  unfold step. destruct (enabled e w); [| discriminate].
  pose proof (handle_silent e w) as H1.
  destruct (mounted w).
  - destruct (mounted (exec (handle loc e) w)); intros [= <-];
      (etransitivity; [exact H1 |]).
    + apply flushEffects_silent.
    + apply unmount_silent.
  - intros [= <-]. intros Hp. destruct (H1 Hp) as [_ Hlog].
    destruct w as [[] ]. destruct (exec (handle loc e) _). simpl in *.
    intuition.
Qed.

Lemma run_silent es w w' : run loc es w = Some w' → silent w w'.
Proof.
  revert w. induction es as [| e es IH]; intros w; simpl.
  - intros [= <-]. reflexivity.
  - destruct (step loc e w) as [w1 |] eqn:E; [| discriminate].
    intros Hrun. transitivity w1; [exact (step_silent e w w1 E) | exact (IH w1 Hrun)].
Qed.

Lemma getQuestion_text_only w :
  Js.truthy (loc_question (orEmpty loc)) = true →
  exec (getQuestion loc) w
  = with_ui (with_isLoading false
               (with_question (loc_question (orEmpty loc))
                  (with_error None (ui w)))) w.
Proof.
  intros Hq. destruct w as [[] ].
  unfold getQuestion. run_handler. rewrite Hq, no_audio. reflexivity.
Qed.

Lemma mount_text_only :
  Js.truthy (loc_question (orEmpty loc)) = true →
  mount loc
  = mkWorld (mkState false [] None false None (loc_question (orEmpty loc))
               None false Js.Null None false false)
      TalkRoute [] 0 [] 0 [] (Some 0%nat) (Some freshAudio) [] [freshAudio] [].
Proof.
  intros Hq.
  change (mount loc)
    with (exec (flushEffects loc initialState)
            (exec (getQuestion loc) (exec attachRefs initialWorld))).
  rewrite getQuestion_text_only by exact Hq.
  rewrite flushEffects_same by reflexivity.
  reflexivity.
Qed.

End TextOnly.

(** *** Recorders and the microphone *)

(** What the invariant reads of the recorders: their states. *)
Definition shape (w : World) : list RecorderState := rec_state <$> recorders w.

(** What [stop()] makes of a recorder's state. *)
Definition stopped (s : RecorderState) : RecorderState := Inactive.

(** A recorder that records is the one in [mediaRecorder], or the one
    the installed cleanup closes over. *)
Definition only_recording (mr old : option nat) (l : list RecorderState) : Prop :=
  ∀ i, l !! i = Some Recording → mr = Some i ∨ old = Some i.

Lemma only_recording_stop mr old l i :
  only_recording mr old l → only_recording mr old (alter stopped i l).
Proof.
  intros H j. rewrite list_lookup_alter. case_decide as E.
  - subst j. destruct (l !! i); simpl; discriminate.
  - apply H.
Qed.

Lemma only_recording_stop_old mr j l :
  only_recording mr (Some j) l → only_recording mr mr (alter stopped j l).
Proof.
  intros H i. rewrite list_lookup_alter. case_decide as E.
  - subst i. destruct (l !! j); simpl; discriminate.
  - intros Hl. destruct (H i Hl) as [-> | [= ->]]; [auto | congruence].
Qed.



Lemma recording_shape j w :
  recording (Some j) w = true ↔ shape w !! j = Some Recording.
Proof.
  unfold recording, shape. rewrite list_lookup_fmap.
  destruct (recorders w !! j) as [[[] t b p]|]; simpl; split;
    try discriminate; auto.
Qed.

(** Handlers that leave the recorders' states, the stored recorder and
    the mounted screen as they are. *)
Definition calm (w w' : World) : Prop :=
  shape w' = shape w
  ∧ mediaRecorder (ui w') = mediaRecorder (ui w)
  ∧ (mounted w' = true → mounted w = true).

#[local] Instance calm_preorder : PreOrder calm.
Proof.
  split.
  - intros w. repeat split. auto.
  - intros a b c (H1 & H2 & H3) (H4 & H5 & H6). repeat split; try congruence. auto.
Qed.

Ltac calm_leaf :=
  intros [[] ]; cbv; intuition congruence.

Ltac calm_tac :=
  unfold startRecording, startRecording_resume,
    handleFinish, handleFinish_resume, handleFinish_catch, postTranscribeAnswer,
    handleContinue, getQuestion, playAudio_resume,
    playEffect, playAudio, playAudio_catch, responseEffect, attachRefs, detachRefs,
    alterAudio;
  respects_structure; try calm_leaf.



Lemma detachRefs_calm : respects calm detachRefs.
Proof. calm_tac. Qed.

Lemma playEffect_calm : respects calm playEffect.
Proof. calm_tac. Qed.

Lemma responseEffect_calm : respects calm responseEffect.
Proof. calm_tac. Qed.

Lemma shape_alter (f : Recorder → Recorder) i (l : list Recorder) :
  (∀ r, rec_state (f r) = rec_state r) →
  rec_state <$> alter f i l = rec_state <$> l.
Proof.
  intros Hf. rewrite (list_fmap_alter rec_state f id).
  - apply list_alter_id. reflexivity.
  - apply Forall_true. exact Hf.
Qed.

(** The audio a recorder gathers, the end of its tracks and the dispatch
    of its queued events leave its state alone. *)
Lemma alterRecorder_calm i f :
  (∀ r, rec_state (f r) = rec_state r) → respects calm (alterRecorder i f).
Proof.
  intros Hf w. unfold calm, exec, alterRecorder, modify, shape.
  destruct w as [[] ]. simpl. repeat split; [| auto].
  apply shape_alter, Hf.
Qed.

Lemma recorder_stopped_calm i : respects calm (recorder_stopped i).
Proof.
  unfold recorder_stopped, ondataavailable, onstop. respects_structure;
    try (apply alterRecorder_calm; reflexivity); calm_leaf.
Qed.

(** [recorder.stop()], on the recorders. *)
Lemma recorder_stop_shape i w :
  let w' := exec (recorder_stop i) w in
  shape w' = alter stopped i (shape w)
  ∧ mediaRecorder (ui w') = mediaRecorder (ui w)
  ∧ route w' = route w.
Proof.
  destruct w as [[] ].
  unfold recorder_stop, alterRecorder. run_handler.
  unfold shape. simpl. repeat split.
  apply list_fmap_alter. apply Forall_true. reflexivity.
Qed.

(** The second half of the cleanup, on the rendered audio element. *)
Lemma pause_frame x :
  let x' := exec (element ← get audioRef;
                  match element with
                  | Some a => alterAudio a pause
                  | None => ret tt
                  end) x in
  shape x' = shape x ∧ mediaRecorder (ui x') = mediaRecorder (ui x) ∧ route x' = route x.
Proof.
  cbv zeta. rewrite exec_get. destruct x as [[] ]. destruct audioRef0; repeat split.
Qed.

Lemma cleanup_shape mr w :
  let w' := exec (cleanup mr) w in
  mediaRecorder (ui w') = mediaRecorder (ui w)
  ∧ route w' = route w
  ∧ ((∃ i, mr = Some i ∧ recording mr w = true ∧ shape w' = alter stopped i (shape w))
     ∨ (recording mr w = false ∧ shape w' = shape w)).
Proof.
  cbv zeta. unfold cleanup. rewrite exec_get.
  rewrite exec_then
    by (destruct mr; [apply returns_when, recorder_stop_returns | apply returns_ret]).
  match goal with |- context [exec (get audioRef ≫= ?k) ?x] =>
    destruct (pause_frame x) as (-> & -> & ->) end.
  destruct mr as [i |]; [| simpl; auto].
  destruct (recording (Some i) w) eqn:E.
  - destruct (recorder_stop_shape i w) as (Hs & Hm & Hr).
    simpl. repeat split; [exact Hm | exact Hr |]. left. eauto.
  - simpl. auto.
Qed.

(** What an event handler does to the recorders: nothing, or it stops
    one, or it starts a new one and stores it. *)
Lemma handle_recorders e w :
  let w1 := exec (handle loc e) w in
  calm w w1
  ∨ (∃ i, shape w1 = alter stopped i (shape w)
          ∧ mediaRecorder (ui w1) = mediaRecorder (ui w) ∧ route w1 = route w)
  ∨ (shape w1 = shape w ++ [Recording]
     ∧ mediaRecorder (ui w1) = Some (length (shape w)) ∧ route w1 = route w).
Proof.
  cbv zeta.
  destruct e;
    try (left; refine ((_ : respects calm (handle loc _)) w); unfold handle;
         first [apply alterRecorder_calm; reflexivity
               | apply recorder_stopped_calm | calm_tac]; fail).
  - (* ClickTalk *)
    unfold handle, handleTalkClick.
    change (exec _ w)
      with (exec (if isRecording (ui w) then stopRecording
                  else call_async startRecording) w).
    destruct (isRecording (ui w)).
    + unfold stopRecording.
      change (exec _ w)
        with (exec (match mediaRecorder (ui w) with
                    | Some i => when (recording (mediaRecorder (ui w)) w)
                                  (recorder_stop i;; setIsRecording false)
                    | None => ret ()
                    end) w).
      destruct (mediaRecorder (ui w)) as [i |] eqn:Emr; [| left; reflexivity].
      destruct (recording (Some i) w); [| left; reflexivity].
      right. left. exists i. unfold when.
      rewrite exec_then by apply recorder_stop_returns.
      destruct (recorder_stop_shape i w) as (Hs & Hm & Hr).
      rewrite <- Hs, <- Hr, <- Emr, <- Hm.
      destruct (exec (recorder_stop i) w) as [[] ]. repeat split.
    + left. refine ((_ : respects calm (call_async startRecording)) w). calm_tac.
  - (* UserMediaGranted *)
    right. right.
    destruct w as [[] ]. unfold handle, startRecording_resume, alterRecorder.
    run_handler. unfold shape. simpl.
    rewrite length_fmap. repeat split.
    rewrite alter_app_r_alt by lia. rewrite Nat.sub_diag. simpl.
    rewrite fmap_app. reflexivity.
Qed.




Lemma flushEffects_keeps_route old : respects (keeps route) (flushEffects loc old).
Proof. unfold flushEffects, recorderEffect, audioEffects. keeps_tac. Qed.


(** The invariant of the recorders: while the screen is mounted the only
    recorder that can be recording is the stored one. *)
Definition recorders_ok (w : World) : Prop :=
  mounted w = true →
  only_recording (mediaRecorder (ui w)) (mediaRecorder (ui w)) (shape w).


(** Teardown stops the stored recorder, so that no recorder is left
    recording. *)
Lemma unmount_recorders w :
  only_recording (mediaRecorder (ui w)) (mediaRecorder (ui w)) (shape w) →
  let w' := exec unmount w in
  route w' = route w
  ∧ ∀ i s, shape w' !! i = Some s → s = Inactive.
Proof.
  intros Ho. cbv zeta. unfold unmount. rewrite exec_get.
  rewrite exec_then by apply detachRefs_returns.
  destruct (detachRefs_calm w) as (Hs0 & Hm0 & _).
  assert (Hr0 : respects (keeps route) detachRefs) by keeps_tac.
  specialize (Hr0 w). unfold keeps in Hr0.
  destruct (cleanup_shape (mediaRecorder (ui w)) (exec detachRefs w)) as (_ & Hr & Hcase).
  split; [rewrite Hr; exact Hr0 |].
  assert (Hall : ∀ l : list RecorderState,
             (∀ i, l !! i ≠ Some Recording) → ∀ i s, l !! i = Some s → s = Inactive).
  { intros l Hn i s Hlook. destruct s; [exfalso; exact (Hn i Hlook) | reflexivity]. }
  destruct Hcase as [(j & Hj & _ & ->) | (Hnot & ->)]; rewrite Hs0.
  - apply Hall. intros i Hl. rewrite Hj in Ho.
    destruct (only_recording_stop_old _ _ _ Ho i Hl) as [[= ->] | [= ->]];
      rewrite list_lookup_alter_eq in Hl;
      destruct (shape w !! i); discriminate.
  - apply Hall. intros i Hl. destruct (Ho i Hl) as [Hc | Hc];
      rewrite Hc in Hnot;
      assert (recording (Some i) (exec detachRefs w) = true)
        by (apply recording_shape; rewrite Hs0; exact Hl);
      congruence.
Qed.


(** What teardown does achieve: when an event tears the screen down, no
    recorder is recording afterwards.  The tracks of the recorder that
    was stopped end when its queued [stop] event is dispatched. *)
Lemma teardown_recorders e w w' :
  recorders_ok w → mounted w = true → step loc e w = Some w' → mounted w' = false →
  ∀ r, r ∈ recorders w' → rec_state r = Inactive.
Proof.
  intros Ho Hm. unfold step. destruct (enabled e w); [| discriminate].
  rewrite Hm.
  destruct (mounted (exec (handle loc e) w)) eqn:Hm1; intros [= <-] Hm'.
  - pose proof (flushEffects_keeps_route (ui w) (exec (handle loc e) w)) as Hk.
    unfold keeps in Hk. unfold mounted in Hm', Hm1. rewrite Hk in Hm'. congruence.
  - assert (Hcur : only_recording (mediaRecorder (ui (exec (handle loc e) w)))
                     (mediaRecorder (ui (exec (handle loc e) w)))
                     (shape (exec (handle loc e) w))).
    { destruct (handle_recorders e w)
        as [(Hs & Hmr & _) | [(i & Hs & Hmr & _) | (_ & _ & Hr)]].
      - rewrite Hs, Hmr. exact (Ho Hm).
      - rewrite Hs, Hmr. apply only_recording_stop, (Ho Hm).
      - unfold mounted in Hm, Hm1. rewrite Hr in Hm1. congruence. }
    intros r Hr. apply list_elem_of_lookup in Hr as [i Hi].
    apply (proj2 (unmount_recorders _ Hcur) i).
    unfold shape. rewrite list_lookup_fmap, Hi. reflexivity.
Qed.



(** Once the screen is gone, nothing stops a recorder: a recorder that
    records then keeps recording, its tracks live, whatever follows. *)
Lemma step_keeps_recording e w w' i r :
  mounted w = false →
  recorders w !! i = Some r → rec_state r = Recording → rec_stopping r = false →
  step loc e w = Some w' →
  mounted w' = false
  ∧ ∃ r', recorders w' !! i = Some r' ∧ rec_state r' = Recording
          ∧ rec_stopping r' = false ∧ rec_stream r' = rec_stream r.
Proof.
  intros Hm Hi Hs Hp. unfold step.
  destruct (enabled e w) eqn:He; [| discriminate]. rewrite Hm. intros [= <-].
  assert (Hlt : (i < length (recorders w))%nat) by (eapply lookup_lt_Some; exact Hi).
  destruct w as [s ro rs mp rq fl ou ar rr pl au ps]. simpl in Hi, Hlt.
  destruct e; simpl in He;
    try (rewrite Hm in He; discriminate).
  - (* UserMediaGranted *)
    unfold handle, startRecording_resume, alterRecorder. run_handler.
    split; [exact Hm |]. exists r.
    rewrite list_lookup_alter_ne by (rewrite ?length_app; lia).
    rewrite lookup_app_l by exact Hlt. auto.
  - (* UserMediaDenied *)
    unfold handle, startRecording_resume. run_handler.
    split; [exact Hm |]. exists r. auto.
  - (* RecorderData *)
    unfold handle, alterRecorder. run_handler.
    split; [exact Hm |].
    destruct (decide (i0 = i)) as [-> |].
    + rewrite list_lookup_alter_eq, Hi. simpl. eexists. split; [reflexivity |]. auto.
    + rewrite list_lookup_alter_ne by auto. exists r. auto.
  - (* RecorderStopped *)
    assert (Hne : i0 ≠ i) by (intros ->; rewrite Hi, Hp in He; discriminate).
    unfold handle, recorder_stopped, ondataavailable, onstop, alterRecorder. run_handler.
    destruct (0 <? _)%nat; cbv zeta; simpl;
      (split; [exact Hm |]); exists r;
      rewrite !list_lookup_alter_ne by auto; auto.
  - (* FetchSettled *)
    unfold handle, handleFinish_resume, handleFinish_catch. run_handler.
    destruct r0 as [| [] [result |]]; simpl;
      try (split; [exact Hm |]; exists r; auto; fail).
    destruct (Js.truthy (res_response result)); simpl.
    + destruct (Js.truthy (res_responseAudio result)); simpl;
        [destruct (atob (res_responseAudio result)); simpl |];
        (split; [exact Hm |]); exists r; auto.
    + split; [reflexivity |]. exists r. auto.
  - (* AudioSettled *)
    unfold handle, playAudio_resume, playAudio_catch, alterAudio. run_handler.
    destruct ok; simpl; (split; [exact Hm |]); exists r; auto.
  - (* AudioEnded *)
    unfold handle, alterAudio. run_handler.
    split; [exact Hm |]. exists r. auto.
Qed.

Lemma run_keeps_recording es w w' i r :
  mounted w = false →
  recorders w !! i = Some r → rec_state r = Recording → rec_stopping r = false →
  run loc es w = Some w' →
  mounted w' = false
  ∧ ∃ r', recorders w' !! i = Some r' ∧ rec_state r' = Recording
          ∧ rec_stopping r' = false ∧ rec_stream r' = rec_stream r.
Proof.
  revert w r. induction es as [| e es IH]; intros w r Hm Hi Hs Hp; simpl.
  - intros [= <-]. split; [exact Hm |]. exists r. auto.
  - destruct (step loc e w) as [w1 |] eqn:E; [| discriminate].
    destruct (step_keeps_recording e w w1 i r Hm Hi Hs Hp E)
      as (Hm1 & r1 & Hi1 & Hs1 & Hp1 & Ht1).
    intros Hrun.
    destruct (IH w1 r1 Hm1 Hi1 Hs1 Hp1 Hrun) as (Hm' & r' & Hi' & Hs' & Hp' & Ht').
    split; [exact Hm' |]. exists r'. repeat split; try assumption. congruence.
Qed.

(** *** The log of transcribe requests *)

Lemma handle_keeps_requests e : e ≠ ClickFinish → respects (keeps requests) (handle loc e).
Proof. intros He. destruct e; try congruence; unfold handle; keeps_tac. Qed.

Lemma flushEffects_keeps_requests old : respects (keeps requests) (flushEffects loc old).
Proof. unfold flushEffects, recorderEffect, audioEffects. keeps_tac. Qed.

Lemma flushEffects_keeps_inFlight old : respects (keeps inFlight) (flushEffects loc old).
Proof. unfold flushEffects, recorderEffect, audioEffects. keeps_tac. Qed.

(** What follows the handler within a step touches neither the request
    log nor the count of requests in flight. *)
Lemma step_after_handle e w w' :
  step loc e w = Some w' →
  enabled e w = true
  ∧ requests w' = requests (exec (handle loc e) w)
  ∧ inFlight w' = inFlight (exec (handle loc e) w).
Proof.
  unfold step. destruct (enabled e w); [| discriminate].
  intros Hstep. split; [reflexivity |]. revert Hstep.
  destruct (mounted w).
  - destruct (mounted (exec (handle loc e) w)); intros [= <-].
    + split; [apply flushEffects_keeps_requests | apply flushEffects_keeps_inFlight].
    + split; [apply unmount_keeps_requests | apply unmount_keeps_inFlight].
  - intros [= <-]. destruct w as [[] ]. destruct (exec (handle loc e) _). split; reflexivity.
Qed.

Lemma handleFinish_no_recording w :
  hasRecording (ui w) = false →
  exec (handleFinish loc) w
  = with_ui (with_isLoading false (with_error None (ui w))) (with_route EndRoute w).
Proof.
  intros Hr. destruct w as [[] ]. simpl in Hr. subst.
  unfold handleFinish. run_handler. reflexivity.
Qed.

(** What one event does to the request log: nothing, unless it is a click
    on the finish button with a recording and usable identifiers, which
    appends one request carrying all recorded chunks. *)
Lemma step_requests e w w' :
  step loc e w = Some w' →
  requests w' = requests w
  ∨ (e = ClickFinish
     ∧ hasRecording (ui w) = true ∧ showResponse (ui w) = false
     ∧ Js.truthy (loc_drawingId (orEmpty loc)) = true
     ∧ Js.truthy (loc_questionId (orEmpty loc)) = true
     ∧ requests w' = requests w ++ [mkForm (newBlob (recordedChunks (ui w)))
                                      (parseInt (loc_drawingId (orEmpty loc)))
                                      (parseInt (loc_questionId (orEmpty loc)))]
     ∧ inFlight w' = S (inFlight w)).
Proof.
  intros Hstep. destruct (step_after_handle e w w' Hstep) as (He & -> & ->).
  assert (Hcase : e = ClickFinish ∨ e ≠ ClickFinish)
    by (destruct e; first [left; reflexivity | right; discriminate]).
  destruct Hcase as [-> | Hne].
  - destruct (click_enabled w He) as (_ & Hl & _ & Hs). simpl handle.
    destruct (hasRecording (ui w)) eqn:Hr.
    + destruct (Js.truthy (loc_drawingId (orEmpty loc))) eqn:Hd;
        [destruct (Js.truthy (loc_questionId (orEmpty loc))) eqn:Hq |].
      * right. rewrite (handleFinish_submits w Hl Hr Hd Hq).
        destruct w as [[] ]. repeat split; assumption.
      * left. rewrite (handleFinish_missing_ids w Hl Hr) by (right; exact Hq).
        destruct w as [[] ]. reflexivity.
      * left. rewrite (handleFinish_missing_ids w Hl Hr) by (left; exact Hd).
        destruct w as [[] ]. reflexivity.
    + left. rewrite (handleFinish_no_recording w Hr). destruct w as [[] ]. reflexivity.
  - left. apply (handle_keeps_requests e Hne).
Qed.

Lemma mount_requests : requests (mount loc) = [] ∧ inFlight (mount loc) = 0%nat.
Proof.
  assert (H : respects (keeps (λ w, (requests w, inFlight w)))
                (attachRefs;; call_async (getQuestion loc);; flushEffects loc initialState)).
  { unfold flushEffects, recorderEffect, audioEffects. keeps_tac. }
  specialize (H initialWorld). unfold keeps in H. fold (mount loc) in H.
  simpl in H. injection H as -> ->. split; reflexivity.
Qed.

(** X3: every transcribe request the screen ever issues carries the
    [parseInt] of the drawingId and of the questionId of [location.state],
    and both of these are truthy; so when either is missing, null or 0,
    no request is issued on any run. *)
Theorem every_request_carries_the_ids es w :
  run loc es (mount loc) = Some w →
  (∀ body, body ∈ requests w →
     fd_drawing_id body = parseInt (loc_drawingId (orEmpty loc))
     ∧ fd_question_id body = parseInt (loc_questionId (orEmpty loc))
     ∧ Js.truthy (loc_drawingId (orEmpty loc)) = true
     ∧ Js.truthy (loc_questionId (orEmpty loc)) = true)
  ∧ (Js.truthy (loc_drawingId (orEmpty loc)) = false
     ∨ Js.truthy (loc_questionId (orEmpty loc)) = false → requests w = []).
Proof.
  intros Hrun.
  assert (Hall : ∀ body, body ∈ requests w →
     fd_drawing_id body = parseInt (loc_drawingId (orEmpty loc))
     ∧ fd_question_id body = parseInt (loc_questionId (orEmpty loc))
     ∧ Js.truthy (loc_drawingId (orEmpty loc)) = true
     ∧ Js.truthy (loc_questionId (orEmpty loc)) = true).
  { revert Hrun. generalize (mount loc), (proj1 mount_requests).
    intros w0 H0. assert (Hinit : ∀ body, body ∈ requests w0 → False)
      by (rewrite H0; intros body Hb; inversion Hb).
    clear H0. revert w0 Hinit.
    enough (Hgen : ∀ (P : FormData → Prop) es w0,
               (∀ body, body ∈ requests w0 → P body) →
               (Js.truthy (loc_drawingId (orEmpty loc)) = true →
                Js.truthy (loc_questionId (orEmpty loc)) = true →
                ∀ a, P (mkForm a (parseInt (loc_drawingId (orEmpty loc)))
                          (parseInt (loc_questionId (orEmpty loc))))) →
               run loc es w0 = Some w → ∀ body, body ∈ requests w → P body).
    { intros w0 Hinit Hrun. eapply Hgen; [| | exact Hrun].
      - intros body Hb. destruct (Hinit body Hb).
      - intros Hd Hq a. simpl. auto. }
    intros P es'. induction es' as [| e es' IH]; intros w0 H0 HP; simpl.
    - intros [= <-]. exact H0.
    - destruct (step loc e w0) as [w1 |] eqn:E; [| discriminate].
      apply IH; [| exact HP]. intros body Hb.
      destruct (step_requests e w0 w1 E) as [Heq | (_ & _ & _ & Hd & Hq & Heq & _)];
        rewrite Heq in Hb; [exact (H0 body Hb) |].
      apply elem_of_app in Hb as [Hb | Hb]; [exact (H0 body Hb) |].
      apply list_elem_of_singleton in Hb. subst body. apply HP; assumption. }
  split; [exact Hall |].
  intros Hmissing. destruct (requests w) as [| body rest] eqn:Er; [reflexivity |].
  destruct (Hall body) as (_ & _ & Hd & Hq); [rewrite ?Er; left |].
  destruct Hmissing; congruence.
Qed.

(** *** Once a response is on screen *)

Definition response_stays (w w' : World) : Prop :=
  showResponse (ui w) = true → showResponse (ui w') = true.

#[local] Instance response_stays_preorder : PreOrder response_stays.
Proof.
  split.
  - intros w H. exact H.
  - intros a b c H1 H2 H. exact (H2 (H1 H)).
Qed.





(** *** Finishing without a completed recording *)

(** X6: a click on the finish button while no recording is complete, which
    includes the time while one is being made, leaves for the end screen
    and submits nothing. *)
Theorem finish_without_recording_submits_nothing w :
  enabled ClickFinish w = true →
  hasRecording (ui w) = false →
  ∃ w', step loc ClickFinish w = Some w'
    ∧ route w' = EndRoute
    ∧ stage_of w' = Finished
    ∧ requests w' = requests w
    ∧ inFlight w' = inFlight w.
Proof.
  intros He Hr.
  destruct (click_enabled w He) as (Hroute & _ & _ & _).
  assert (Hm : mounted w = true) by (unfold mounted; rewrite Hroute; reflexivity).
  pose proof (handleFinish_no_recording w Hr) as Hw1.
  eexists. split.
  - apply step_leaving; [exact He | exact Hm |].
    simpl handle. rewrite Hw1. destruct w as [[] ]. reflexivity.
  - simpl handle. rewrite Hw1.
    match goal with |- context [exec unmount ?x] =>
      pose proof (unmount_keeps_route x) as Hk1;
      pose proof (unmount_keeps_requests x) as Hk2;
      pose proof (unmount_keeps_inFlight x) as Hk3 end.
    unfold keeps in Hk1, Hk2, Hk3. unfold stage_of. rewrite Hk1, Hk2, Hk3.
    destruct w as [[] ]. repeat split.
Qed.

(** *** Recorded chunks *)

Definition chunks_grow (w w' : World) : Prop :=
  recordedChunks (ui w) `prefix_of` recordedChunks (ui w').

#[local] Instance chunks_grow_preorder : PreOrder chunks_grow.
Proof.
  split.
  - intros w. unfold chunks_grow. reflexivity.
  - intros a b c H1 H2. unfold chunks_grow in *. etransitivity; eassumption.
Qed.

Ltac chunks_leaf :=
  intros [[] ]; unfold chunks_grow; run_handler;
  try match goal with |- context [contentRendered ?s] => destruct (contentRendered s) end;
  first [reflexivity | apply prefix_app_r; reflexivity].

Lemma handle_chunks_grow e : respects chunks_grow (handle loc e).
Proof. destruct e; unfold handle; keeps_tac; chunks_leaf. Qed.

Lemma flushEffects_chunks_grow old : respects chunks_grow (flushEffects loc old).
Proof. unfold flushEffects, recorderEffect, audioEffects. keeps_tac; chunks_leaf. Qed.

Lemma unmount_chunks_grow : respects chunks_grow unmount.
Proof. keeps_tac; chunks_leaf. Qed.

Lemma step_chunks_grow e w w' : step loc e w = Some w' → chunks_grow w w'.
Proof.
  unfold step. destruct (enabled e w); [| discriminate].
  pose proof (handle_chunks_grow e w) as H1.
  destruct (mounted w).
  - destruct (mounted (exec (handle loc e) w)); intros [= <-];
      (etransitivity; [exact H1 |]).
    + apply flushEffects_chunks_grow.
    + apply unmount_chunks_grow.
  - intros [= <-]. unfold chunks_grow. destruct w as [[] ].
    destruct (exec (handle loc e) _). reflexivity.
Qed.

Lemma recorded_chunks_only_grow_aux es w w' :
  run loc es w = Some w' → chunks_grow w w'.
Proof.
  revert w. induction es as [| e es IH]; intros w; simpl.
  - intros [= <-]. reflexivity.
  - destruct (step loc e w) as [w1 |] eqn:E; [| discriminate].
    intros Hrun. etransitivity; [exact (step_chunks_grow e w w1 E) | exact (IH w1 Hrun)].
Qed.

(** X1: recorded audio is never dropped.  On every run the chunks recorded
    before are a prefix of the chunks held afterwards: recording again adds
    to the earlier answer and nothing clears the list. *)
Theorem recorded_chunks_only_grow es w w' :
  run loc es w = Some w' →
  recordedChunks (ui w) `prefix_of` recordedChunks (ui w').
Proof. apply recorded_chunks_only_grow_aux. Qed.

Lemma newBlob_prefix (a b : list Blob) : a `prefix_of` b → newBlob a `prefix_of` newBlob b.
Proof.
  intros [k ->]. unfold newBlob. rewrite concat_app. apply prefix_app_r. reflexivity.
Qed.

(** X2: what is submitted begins with everything recorded earlier.  If a
    click on the finish button at the end of a run issues a request, the
    audio of that request has as a prefix the concatenation of the chunks
    held at any earlier point of the run. *)
Theorem submitted_audio_contains_earlier_recordings es w w1 w2 body :
  run loc es w = Some w1 →
  step loc ClickFinish w1 = Some w2 →
  requests w2 = requests w1 ++ [body] →
  newBlob (recordedChunks (ui w)) `prefix_of` fd_audio body.
Proof.
  intros Hrun Hstep Hreq.
  pose proof (recorded_chunks_only_grow_aux es w w1 Hrun) as Hpre.
  destruct (step_requests ClickFinish w1 w2 Hstep) as [Heq | (_ & _ & _ & _ & _ & Heq & _)];
    rewrite Heq in Hreq.
  - exfalso. apply (f_equal length) in Hreq. rewrite length_app in Hreq. simpl in Hreq. lia.
  - apply app_inv_head in Hreq. injection Hreq as <-. simpl. apply newBlob_prefix, Hpre.
Qed.

(** *** A response arrives *)

Lemma handleFinish_resume_response w r :
  Js.truthy (res_response r) = true →
  exec (handleFinish_resume (Resolved true (Some r))) w
  = let w1 := with_ui (with_showResponse true (with_response (res_response r) (ui w))) w in
    match (if Js.truthy (res_responseAudio r) then atob (res_responseAudio r) else None) with
    | Some bytes =>
        with_ui (with_isLoading false
                   (with_responseAudio (Some (length (objectUrls w))) (ui w1)))
          (with_objectUrls (objectUrls w ++ [bytes]) w1)
    | None => with_ui (with_isLoading false (ui w1)) w1
    end.
Proof.
  intros Hr. destruct w as [[] ].
  unfold handleFinish_resume. run_handler. rewrite Hr.
  destruct (Js.truthy (res_responseAudio r)); [destruct (atob (res_responseAudio r)) |];
    reflexivity.
Qed.

(** A commit after which only [responseAudio] may have changed runs at most
    the effect on the response audio, which leaves the state alone. *)
Lemma flushEffects_quiet old w :
  mediaRecorder (ui w) = mediaRecorder old →
  questionAudio (ui w) = questionAudio old →
  questionAudioPlayed (ui w) = questionAudioPlayed old →
  ui (exec (flushEffects loc old) w) = ui w.
Proof.
  intros Hm Hq Hp.
  destruct (attachRefs_frame w) as (Hui & _).
  assert (Hresp : respects (keeps ui) responseEffect) by keeps_tac.
  unfold flushEffects.
  rewrite exec_then by apply attachRefs_returns.
  rewrite exec_then by apply recorderEffect_returns.
  assert (Hrec : ∀ x, ui x = ui w → exec (recorderEffect loc old) x = x).
  { intros x Hx. unfold recorderEffect. rewrite exec_get.
    rewrite Hx, Hm, bool_decide_eq_false_2 by tauto. reflexivity. }
  rewrite Hrec by exact Hui.
  unfold audioEffects. rewrite exec_get.
  rewrite Hui, Hq, Hp.
  rewrite (bool_decide_eq_false_2
             (questionAudio old ≠ questionAudio old
              ∨ questionAudioPlayed old ≠ questionAudioPlayed old)) by tauto.
  cbn [when]. rewrite exec_then by apply returns_ret.
  change (exec (ret ()) ?x) with x.
  destruct (bool_decide (responseAudio (ui w) ≠ responseAudio old)); cbn [when];
    [| exact Hui].
  rewrite <- Hui. apply Hresp.
Qed.

(** X4: in the Submitting stage, a transcribeAnswer call that succeeds with
    a response text puts the session into Responding on the talk screen:
    the text is stored and, unless an error is pending, shown in the
    response bubble; the loading flag goes down and no request is issued.
    Response audio that is present and decodes is registered under a fresh
    object URL; audio that is absent or does not decode changes nothing. *)
Theorem response_is_shown w r :
  stage_of w = Submitting →
  Js.truthy (res_response r) = true →
  ∃ w', step loc (FetchSettled (Resolved true (Some r))) w = Some w'
    ∧ stage_of w' = Responding
    ∧ response (ui w') = res_response r
    ∧ isLoading (ui w') = false
    ∧ requests w' = requests w
    ∧ (Js.truthy_str (error (ui w)) = false →
       responseBubble (ui w') = Some (res_response r))
    ∧ responseAudio (ui w')
      = match (if Js.truthy (res_responseAudio r)
               then atob (res_responseAudio r) else None) with
        | Some _ => Some (length (objectUrls w))
        | None => responseAudio (ui w)
        end.
Proof.
  intros Hs Hr.
  destruct (submitting_inv w Hs) as (Hroute & _ & Hin).
  assert (Hm : mounted w = true) by (unfold mounted; rewrite Hroute; reflexivity).
  assert (Hw1 : exec (handle loc (FetchSettled (Resolved true (Some r)))) w
                = exec (handleFinish_resume (Resolved true (Some r)))
                    (with_inFlight (pred (inFlight w)) w)) by reflexivity.
  rewrite handleFinish_resume_response in Hw1 by exact Hr. cbv zeta in Hw1.
  assert (Hm1 : mounted (exec (handle loc (FetchSettled (Resolved true (Some r)))) w) = true).
  { rewrite Hw1. destruct w as [[] ]. simpl in Hroute. subst.
    destruct (if Js.truthy _ then _ else _); reflexivity. }
  eexists. split; [apply step_staying; [exact Hin | exact Hm | exact Hm1] |].
  pose proof (flushEffects_keeps_route (ui w)
                (exec (handle loc (FetchSettled (Resolved true (Some r)))) w)) as Hk1.
  pose proof (flushEffects_keeps_requests (ui w)
                (exec (handle loc (FetchSettled (Resolved true (Some r)))) w)) as Hk2.
  unfold keeps in Hk1, Hk2. unfold stage_of, responseBubble, contentRendered.
  rewrite Hk1, Hk2.
  rewrite flushEffects_quiet
    by (rewrite Hw1; destruct w as [[] ];
        destruct (if Js.truthy _ then _ else _); reflexivity).
  rewrite Hw1. destruct w as [[] ]. simpl in Hroute. subst.
  destruct (if Js.truthy _ then _ else _); simpl;
    (repeat split; try reflexivity; intros ->; reflexivity).
Qed.

(** *** A failed question audio *)

Lemma handle_audio_failed a w :
  exec (handle loc (AudioSettled a false)) w
  = with_ui (with_error (Some "Unable to play the question audio. Please try again.")
               (ui w))
      (with_audios (alter (λ e, mkAudio (a_src e) (a_playing e) false) a (audios w)) w).
Proof.
  destruct w as [[] ]. unfold handle, playAudio_resume, playAudio_catch, alterAudio.
  run_handler. reflexivity.
Qed.

(** X8: when the question audio fails to load or to play, on whichever
    audio element the [playAudio] call was waiting, the error
    'Unable to play the question audio. Please try again.' takes the place
    of the content: the question text is no longer on screen and neither
    the answer nor the finish button can be clicked. *)
Theorem audio_failure_hides_the_question a w :
  mounted w = true →
  enabled (AudioSettled a false) w = true →
  ∃ w', step loc (AudioSettled a false) w = Some w'
    ∧ error (ui w') = Some "Unable to play the question audio. Please try again."
    ∧ question (ui w') = question (ui w)
    ∧ questionBubble (ui w') = None
    ∧ enabled ClickTalk w' = false
    ∧ enabled ClickFinish w' = false
    ∧ enabled ClickTryAgain w' = negb (isLoading (ui w)).
Proof.
  intros Hm He.
  eexists. split.
  - apply step_staying; [exact He | exact Hm |].
    rewrite handle_audio_failed. destruct w as [[] ]. exact Hm.
  - rewrite handle_audio_failed.
    rewrite flushEffects_same by (destruct w as [[] ]; reflexivity).
    match goal with |- context [exec attachRefs ?x] =>
      pose proof (attachRefs_frame x) as (Hu & Hro & _) end.
    unfold enabled, questionBubble, contentRendered, mounted in *. rewrite Hu, Hro.
    destruct w as [[] ]. simpl in *. destruct route0; try discriminate.
    rewrite !andb_false_r. simpl. rewrite andb_true_r. repeat split.
Qed.

(** *** No question to ask *)

Definition stuckWorld (r : Route) : World :=
  mkWorld (mkState false [] None false
             (Some "Oops! Something went wrong. Please try again.")
             Js.Null None false Js.Null None false false)
    r [] 0 [] 0 [] None None [] [] [].

Section NoQuestion.
Hypothesis no_question : Js.truthy (loc_question (orEmpty loc)) = false.

Lemma getQuestion_no_question w :
  exec (getQuestion loc) w
  = with_ui (with_isLoading false
               (with_error (Some "Oops! Something went wrong. Please try again.") (ui w))) w.
Proof.
  destruct w as [[] ]. unfold getQuestion. run_handler. rewrite no_question. reflexivity.
Qed.

Lemma mount_no_question : mount loc = stuckWorld TalkRoute.
Proof.
  change (mount loc)
    with (exec (flushEffects loc initialState)
            (exec (getQuestion loc) (exec attachRefs initialWorld))).
  rewrite getQuestion_no_question.
  rewrite flushEffects_same by reflexivity.
  reflexivity.
Qed.

Lemma step_stuck e r w' :
  r = TalkRoute ∨ r = Elsewhere →
  step loc e (stuckWorld r) = Some w' →
  w' = stuckWorld TalkRoute ∨ w' = stuckWorld Elsewhere.
Proof.
  intros [-> | ->].
  - destruct e; try (vm_compute; discriminate).
    + (* ClickTryAgain *)
      unfold step.
      change (enabled ClickTryAgain (stuckWorld TalkRoute)) with true.
      change (mounted (stuckWorld TalkRoute)) with true.
      cbv zeta. simpl handle. rewrite getQuestion_no_question.
      change (mounted _) with true. cbv iota.
      rewrite flushEffects_same by reflexivity.
      intros [= <-]. left. reflexivity.
    + (* NavigateAway *)
      intros [= <-]. right. reflexivity.
  - destruct e; vm_compute; discriminate.
Qed.

(** X7: without a question in [location.state] the screen is a dead end.
    On every run it shows the error 'Oops! Something went wrong. Please try
    again.' and nothing else: the question bubble never appears, the
    microphone is never asked for, no recorder exists and no request is
    issued; "Try Again" brings back the same state, and the only way on is
    to leave the screen. *)
Theorem missing_question_is_a_dead_end es w :
  run loc es (mount loc) = Some w →
  (w = stuckWorld TalkRoute ∨ w = stuckWorld Elsewhere)
  ∧ error (ui w) = Some "Oops! Something went wrong. Please try again."
  ∧ questionBubble (ui w) = None
  ∧ micPending w = 0%nat ∧ recorders w = [] ∧ requests w = [].
Proof.
  intros Hrun.
  assert (Hw : w = stuckWorld TalkRoute ∨ w = stuckWorld Elsewhere).
  { rewrite mount_no_question in Hrun.
    assert (Hgen : ∀ es r w, r = TalkRoute ∨ r = Elsewhere →
               run loc es (stuckWorld r) = Some w →
               w = stuckWorld TalkRoute ∨ w = stuckWorld Elsewhere).
    { intros es'. induction es' as [| e es' IH]; intros r w0 Hr; simpl.
      - intros [= <-]. destruct Hr as [-> | ->]; auto.
      - destruct (step loc e (stuckWorld r)) as [w1 |] eqn:E; [| discriminate].
        destruct (step_stuck e r w1 Hr E) as [-> | ->]; apply IH; auto. }
    apply (Hgen es TalkRoute w); auto. }
  split; [exact Hw |]. destruct Hw as [-> | ->]; repeat split.
Qed.

End NoQuestion.

(** *** One recording at a time *)


End Facts.

(** C3: an analyzeDrawing result that carries a question text but no
    question audio still brings up the talk screen in AwaitingAnswer with
    that text in the question bubble, and playback is never invoked: along
    every run of the screen the question-audio state stays null, the
    play effect calls [playAudio] not once and no playback starts. *)
Theorem C3_question_without_audio {browser : Browser} (r : DrawScreen.AnalysisResult) :
  Js.truthy (DrawScreen.ar_question r) = true →
  Js.truthy (DrawScreen.ar_questionAudio r) = false →
  let loc := Some (DrawScreen.talkState r) in
  stage_of (mount loc) = AwaitingAnswer
  ∧ questionBubble (ui (mount loc)) = Some (DrawScreen.ar_question r)
  ∧ ∀ es w, run loc es (mount loc) = Some w →
            questionAudio (ui w) = None ∧ playLog w = [] ∧ playStarts w = [].
Proof.
  intros Hq Ha loc.
  assert (Hm := mount_text_only loc Ha Hq). simpl in Hm.
  split; [| split].
  - rewrite Hm. reflexivity.
  - rewrite Hm. unfold questionBubble. simpl. rewrite Hq. reflexivity.
  - intros es w Hrun.
    destruct (run_silent loc Ha es _ _ Hrun) as (H1 & H2 & H3 & _).
    + rewrite Hm. repeat split. repeat constructor.
    + auto.
Qed.

End TalkScreenFacts.

(** ** The draw screen *)

Module DrawScreenFacts.
Import DrawScreen.

Section Facts.
Variable prompt : string.

(** Either no call of [handleNext] is suspended, or exactly one is, on a
    mounted screen whose loading flag is up. *)
Definition one_at_a_time (w : World) : Prop :=
  suspended w = []
  ∨ (∃ s, suspended w = [s]) ∧ mounted w = true ∧ isLoading (ui w) = true.

Lemma step_one_at_a_time e w w' :
  one_at_a_time w → step prompt e w = Some w' → one_at_a_time w'.
Proof.
  intros HJ. unfold step. destruct (enabled e w) eqn:He; [| discriminate].
  intros [= <-]. destruct w as [[img l err cam] t susp reqs].
  destruct HJ as [Hs | ([s Hs] & Hm & Hl)]; simpl in Hs; subst susp.
  - destruct e; try (destruct i; discriminate);
      destruct t; try discriminate; try (left; reflexivity).
    simpl in He. unfold nextDisabled in He. simpl in He.
    destruct (Js.truthy_str img) eqn:Ei, l; try discriminate.
    right. cbv [handle handleNext exec mbind handler_bind bind get ui capturedImage].
    rewrite Ei. simpl. repeat split. eauto.
  - simpl in Hm, Hl. destruct t; [discriminate |]. subst l.
    destruct e; try (right; repeat split; eauto; fail).
    + simpl in He. unfold nextDisabled in He. simpl in He.
      rewrite orb_true_r in He. discriminate.
    + destruct i as [| i]; [| destruct i; discriminate].
      destruct s; [| discriminate].
      destruct blob; [right; repeat split; eauto | left; reflexivity].
    + destruct i as [| i]; [| destruct i; discriminate].
      destruct s; [discriminate |].
      destruct r as [| [] []]; left; reflexivity.
Qed.

Lemma run_one_at_a_time es w w' :
  one_at_a_time w → run prompt es w = Some w' → one_at_a_time w'.
Proof.
  revert w. induction es as [| e es IH]; intros w HJ; simpl.
  - intros [= <-]. exact HJ.
  - destruct (step prompt e w) as [w1 |] eqn:E; [| discriminate].
    apply IH. exact (step_one_at_a_time e w w1 HJ E).
Qed.

(** X10: on the draw screen the next button does its job: along every run at
    most one analysis request is in flight, and while one is, the next
    button is disabled. *)
Lemma one_analysis_in_flight es w :
  run prompt es initialWorld = Some w →
  (analysesInFlight w ≤ 1)%nat
  ∧ (analysesInFlight w = 1%nat → nextDisabled (ui w) = true).
Proof.
  intros Hrun.
  destruct (run_one_at_a_time es initialWorld w (or_introl eq_refl) Hrun)
    as [Hs | ([s Hs] & _ & Hl)]; unfold analysesInFlight; rewrite Hs.
  - simpl. split; [lia | discriminate].
  - split; [destruct s; simpl; lia |].
    intros _. unfold nextDisabled. rewrite Hl. apply orb_true_r.
Qed.

(** A successful analysis hands its result to the talk screen. *)
Lemma analysis_hands_over i r w w' :
  step prompt (AnalysisSettled i (Resolved true (Some r))) w = Some w' →
  talk w' = Some (talkState r).
Proof.
  unfold step. destruct (enabled _ w); [| discriminate].
  intros [= <-]. destruct w as [[] [t |] ? ?]; reflexivity.
Qed.

(** X11: an analysis that fails (network error, non-ok response, or a body
    that is not JSON) leaves the draw screen ready for another try: the
    captured image is kept, the error 'Could not analyze your drawing.
    Please try again.' is set, the loading flag goes down, nothing is
    navigated and no request is issued; the next button is enabled again
    exactly when an image is still there. *)
Theorem failed_analysis_keeps_the_image i r w :
  mounted w = true →
  enabled (AnalysisSettled i r) w = true →
  r = Rejected ∨ (∃ json, r = Resolved false json) ∨ r = Resolved true None →
  ∃ w', step prompt (AnalysisSettled i r) w = Some w'
    ∧ capturedImage (ui w') = capturedImage (ui w)
    ∧ error (ui w') = Some "Could not analyze your drawing. Please try again."
    ∧ isLoading (ui w') = false
    ∧ talk w' = None
    ∧ requests w' = requests w
    ∧ nextDisabled (ui w') = negb (Js.truthy_str (capturedImage (ui w))).
Proof.
  intros Hm He Hr. unfold step. rewrite He, Hm.
  destruct w as [[img l err cam] [t |] susp reqs]; [discriminate |].
  eexists. split; [reflexivity |].
  destruct Hr as [-> | [[json ->] | ->]]; simpl; unfold nextDisabled; simpl;
    rewrite orb_false_r; repeat split.
Qed.

(** What the draw screen has sent and where it has gone: every analysis
    request carries the prompt, and a call waiting for an analysis or a
    navigation to the talk screen means that a request has been sent. *)
Definition analysed_first (w : World) : Prop :=
  (∀ body, body ∈ requests w → fd_prompt body = prompt)
  ∧ (AtAnalysis ∈ suspended w ∨ is_Some (talk w) → requests w ≠ []).

Lemma step_analysed_first e w w' :
  analysed_first w → step prompt e w = Some w' → analysed_first w'.
Proof.
  intros (Hp & Hq). unfold step. destruct (enabled e w) eqn:He; [| discriminate].
  intros [= <-]. destruct w as [[img l err cam] t susp reqs]. simpl in Hp, Hq.
  assert (Hsnoc : ∀ image, ∀ body, body ∈ reqs ++ [mkForm image prompt] →
                                   fd_prompt body = prompt).
  { intros image body Hb. apply elem_of_app in Hb as [Hb | Hb]; [exact (Hp body Hb) |].
    apply list_elem_of_singleton in Hb. subst body. reflexivity. }
  assert (Hdel : ∀ j, AtAnalysis ∈ delete j susp → AtAnalysis ∈ susp).
  { intros j Hj. exact (list_elem_of_delete_inv _ _ _ Hj). }
  destruct e; simpl in He.
  - (* ClickStartCamera *) destruct t; split; simpl; auto.
  - (* ClickCapture *) destruct t; split; simpl; auto.
  - (* ClickRetake *) destruct t; split; simpl; auto.
  - (* ClickNext *)
    destruct t; [discriminate |]. unfold nextDisabled in He. simpl in He.
    destruct (Js.truthy_str img) eqn:Ei; [| discriminate].
    cbv [handle handleNext exec mbind handler_bind bind get ui capturedImage].
    rewrite Ei. simpl. split; [exact Hp |].
    intros [Ha | Ht]; [| apply Hq; right; exact Ht].
    apply Hq. left. apply elem_of_app in Ha as [Ha | Ha]; [exact Ha |].
    apply list_elem_of_singleton in Ha. discriminate.
  - (* ImageConverted *)
    destruct blob as [image |]; destruct t; simpl; split;
      try (apply Hsnoc); try exact Hp;
      try (intros _ Hnil; apply app_eq_nil in Hnil as [_ Hnil]; discriminate).
    + intros [Ha | Ht]; [| apply Hq; right; exact Ht]. apply Hq. left. exact (Hdel _ Ha).
    + intros [Ha | Ht]; [| apply Hq; right; exact Ht]. apply Hq. left. exact (Hdel _ Ha).
  - (* AnalysisSettled *)
    assert (Hin : AtAnalysis ∈ susp).
    { destruct (susp !! i) as [[] |] eqn:El; try discriminate.
      eapply list_elem_of_lookup_2. exact El. }
    assert (Hne : reqs ≠ []) by (apply Hq; left; exact Hin).
    destruct r as [| [] [res |]]; destruct t; simpl; split; auto.
Qed.

Lemma run_analysed_first es w w' :
  analysed_first w → run prompt es w = Some w' → analysed_first w'.
Proof.
  revert w. induction es as [| e es IH]; intros w H0; simpl.
  - intros [= <-]. exact H0.
  - destruct (step prompt e w) as [w1 |] eqn:E; [| discriminate].
    apply IH. exact (step_analysed_first e w w1 H0 E).
Qed.

(** X12: the draw screen never moves on to the talk screen without having
    sent the drawing for analysis, and every analysis request it sends
    carries the drawing prompt it was given. *)
Theorem talk_screen_only_after_analysis es w :
  run prompt es initialWorld = Some w →
  (∀ body, body ∈ requests w → fd_prompt body = prompt)
  ∧ (is_Some (talk w) → requests w ≠ []).
Proof.
  intros Hrun.
  assert (H0 : analysed_first initialWorld).
  { split; simpl.
    - intros body Hb. inversion Hb.
    - intros [Ha | [x Hx]]; [inversion Ha | discriminate]. }
  destruct (run_analysed_first es initialWorld w H0 Hrun) as (Hp & Hq).
  split; [exact Hp | intros Ht; apply Hq; right; exact Ht].
Qed.

(** The clicks that work the camera. *)
Definition camera_click (e : Event) : Prop :=
  e = ClickRetake ∨ e = ClickStartCamera ∨ ∃ shot, e = ClickCapture shot.

Lemma camera_click_keeps_request e w w' :
  camera_click e → step prompt e w = Some w' →
  suspended w' = suspended w ∧ requests w' = requests w ∧ talk w' = talk w.
Proof.
  intros Hc. unfold step. destruct (enabled e w); [| discriminate]. intros [= <-].
  destruct w as [[img l err cam] t susp reqs].
  destruct Hc as [-> | [-> | [shot ->]]]; destruct t; repeat split.
Qed.

(** X18: taking the picture again does not cancel an analysis in flight.
    After any sequence of retake, start-camera and capture clicks the
    request is still pending, no new request has gone out, and when the
    analysis succeeds its result takes the child to the talk screen. *)
Theorem retake_does_not_cancel_the_analysis i r es w w1 :
  suspended w !! i = Some AtAnalysis →
  Forall camera_click es →
  run prompt es w = Some w1 →
  ∃ w2, step prompt (AnalysisSettled i (Resolved true (Some r))) w1 = Some w2
    ∧ talk w2 = Some (talkState r)
    ∧ requests w2 = requests w.
Proof.
  intros Hs Hes Hrun.
  assert (Hkeep : suspended w1 = suspended w ∧ requests w1 = requests w).
  { revert w Hs Hrun. induction Hes as [| e es He Hes IH]; intros w Hs; simpl.
    - intros [= <-]. auto.
    - destruct (step prompt e w) as [w0 |] eqn:E; [| discriminate].
      destruct (camera_click_keeps_request e w w0 He E) as (Hs0 & Hr0 & _).
      intros Hrun. destruct (IH w0) as (Hs1 & Hr1); [rewrite Hs0; exact Hs | exact Hrun |].
      split; congruence. }
  destruct Hkeep as (Hs1 & Hr1).
  assert (He : enabled (AnalysisSettled i (Resolved true (Some r))) w1 = true)
    by (simpl; rewrite Hs1, Hs; reflexivity).
  unfold step. rewrite He. eexists. split; [reflexivity |].
  rewrite <- Hr1. destruct w1 as [[] [t |] ? ?]; split; reflexivity.
Qed.

End Facts.

End DrawScreenFacts.

(** ** The consent gate *)

Module AppFacts.
Import App.

Section Facts.
Context {browser : Browser} {zone : TimeZone}.

(** The instant that [thirtyDaysAgo] holds after the [setDate] call. *)
Definition cutoff (now : Z) : Z := UTC (LocalTime now - 30 * msPerDay).

Lemma setDate_cutoff now : setDate now (-30) = cutoff now.
Proof. unfold setDate, cutoff. f_equal; lia. Qed.

Lemma laterThan_cutoff c now :
  laterThan (consentDate c) (setDate now (-30)) = true
  ↔ ∃ t, consentDate c = Some t ∧ cutoff now < t.
Proof.
  rewrite setDate_cutoff. unfold laterThan.
  destruct (consentDate c) as [t |]; split.
  - intros H. apply Z.ltb_lt in H. exists t. split; [reflexivity | exact H].
  - intros (t' & [= <-] & H). apply Z.ltb_lt. exact H.
  - discriminate.
  - intros (t' & [=] & _).
Qed.

Lemma consentCheck_record (c : Consent) (now : Z) :
  let w' := exec (consentCheck now) (start (Some (Json c))) in
  (hasConsent w' = true ↔ ∃ t, consentDate c = Some t ∧ cutoff now < t)
  ∧ (hasConsent w' = true →
     render w' = MainApp ∧ showConsent w' = false
     ∧ consentData w' = Some c ∧ storage w' = Some (Json c))
  ∧ (hasConsent w' = false →
     storage w' = None ∧ render w' = ConsentForm).
Proof.
  cbv zeta. pose proof (laterThan_cutoff c now) as Hiff.
  unfold consentCheck, start, exec, mbind, handler_bind, bind, get, try_catch, ret.
  simpl. destruct (laterThan (consentDate c) (setDate now (-30))); simpl.
  - split; [tauto |]. split; [auto | discriminate].
  - split; [| split].
    + split; [discriminate | intros H; apply Hiff in H; discriminate].
    + discriminate.
    + auto.
Qed.

Lemma sameOffset_cutoff now : sameOffset now → cutoff now = now - 30 * msPerDay.
Proof. intros (off & Hl & Hu). unfold cutoff. rewrite Hl, Hu. lia. Qed.


(** Without a stored record, or with one that does not parse, the consent
    form is shown; an unparsable item stays in storage. *)
Lemma consentCheck_nothing_usable now stored :
  stored = None ∨ stored = Some Empty ∨ stored = Some Unparsable →
  let w' := exec (consentCheck now) (start stored) in
  render w' = ConsentForm ∧ storage w' = stored.
Proof. intros [-> | [-> | ->]]; split; reflexivity. Qed.

(** The record that [handleConsent] builds from a form. *)
Definition recordOf (f : Form) (created stamped : Z) : Consent :=
  mkConsent (f_parentName f) (f_email f) (parseInt (Js.Str (f_childAge f)))
    (Some created) ("session_" +:+ pretty stamped).

Lemma handleConsent_valid f created stamped w :
  isFormValid f = true →
  exec (handleConsent f created stamped) w
  = mkWorld true (Some (recordOf f created stamped)) false
      (Some (Json (recordOf f created stamped))) (alerts w).
Proof.
  intros Hv. unfold handleConsent. fold (isFormValid f). rewrite Hv.
  destruct w. reflexivity.
Qed.

(** X16: consent lasts thirty calendar days.  The record that a complete
    consent form stores opens the app at every start of the app for which
    the moment of consent is later than the same time on the local clock
    thirty calendar days before the start; where the zone shows no clock
    change in between, these are the starts less than thirty times
    twenty-four hours after the consent.  While the record opens the app
    it stays in storage; at any other start it is removed from storage
    and the form is shown again. *)
Theorem consent_lasts_thirty_days f created stamped now w0 :
  isFormValid f = true →
  let stored := storage (exec (handleConsent f created stamped) w0) in
  (render (boot now stored) = MainApp ↔ UTC (LocalTime now - 30 * msPerDay) < created)
  ∧ (sameOffset now →
     (render (boot now stored) = MainApp ↔ now - created < 30 * msPerDay))
  ∧ (render (boot now stored) = MainApp → storage (boot now stored) = stored)
  ∧ (render (boot now stored) ≠ MainApp →
     render (boot now stored) = ConsentForm ∧ storage (boot now stored) = None).
Proof.
  intros Hv. cbv zeta. rewrite (handleConsent_valid f created stamped w0 Hv). simpl.
  destruct (consentCheck_record (recordOf f created stamped) now)
    as (Hiff & Hvalid & Hexp).
  cbv zeta in Hiff, Hvalid, Hexp. fold (cutoff now). unfold boot.
  set (w := exec (consentCheck now) (start (Some (Json (recordOf f created stamped)))))
    in *.
  assert (Hw : (∃ t, consentDate (recordOf f created stamped) = Some t ∧ cutoff now < t)
               ↔ cutoff now < created)
    by (simpl; split; [intros (t & [= <-] & H); exact H | intros H; eexists; eauto]).
  assert (Hshown : render w = MainApp ↔ hasConsent w = true).
  { split; [| intros H; apply Hvalid, H].
    unfold render. destruct (hasConsent w) eqn:Hc; [reflexivity |].
    destruct (Hexp eq_refl) as (_ & Hform). unfold render in Hform.
    rewrite Hc in Hform. destruct (showConsent w); congruence. }
  split; [rewrite Hshown, Hiff; exact Hw |]. split; [| split].
  - intros Hsame. rewrite Hshown, Hiff, Hw, (sameOffset_cutoff now Hsame). lia.
  - intros Hr. apply Hvalid, Hshown, Hr.
  - intros Hr. apply and_comm, Hexp. destruct (hasConsent w) eqn:Hc; [| reflexivity].
    exfalso. apply Hr, Hshown. reflexivity.
Qed.

Lemma run_snoc es e w :
  run (es ++ [e]) w = match run es w with Some w1 => step e w1 | None => None end.
Proof.
  revert w. induction es as [| e0 es IH]; intros w; simpl.
  - destruct (step e w); reflexivity.
  - destruct (step e0 w); [apply IH | reflexivity].
Qed.

(** X17: the app is shown only on a record.  On every run of the consent
    screens from a start of the app, whenever the app is shown the record
    in memory is the record in storage, and either nothing has happened
    since the start, at which the record was in storage and its consent
    date later than the same time on the local clock thirty calendar
    days before, or the last event was the submission of a complete
    form and the record is the one made from that form; and once the app
    is shown, no consent screen event can take it away. *)
Theorem app_is_shown_only_on_a_record now stored es w :
  run es (boot now stored) = Some w →
  render w = MainApp →
  (∃ c, consentData w = Some c ∧ storage w = Some (Json c)
        ∧ ((es = [] ∧ stored = Some (Json c)
            ∧ ∃ t, consentDate c = Some t ∧ UTC (LocalTime now - 30 * msPerDay) < t)
           ∨ ∃ es0 f created stamped,
               es = es0 ++ [GiveConsent f created stamped]
               ∧ isFormValid f = true ∧ c = recordOf f created stamped))
  ∧ ∀ e, step e w = None.
Proof.
  intros Hrun Hr.
  unfold render in Hr.
  destruct (showConsent w) eqn:Hs; [discriminate |].
  destruct (hasConsent w) eqn:Hc; [| discriminate].
  split; [| intros e; unfold step, enabled; rewrite Hs, Hc; destruct e; reflexivity].
  revert Hrun.
  destruct es as [| e es0 _] using rev_ind.
  - intros [= Hw]. subst w. unfold boot in *.
    destruct stored as [[| | c] |]; try discriminate.
    destruct (consentCheck_record c now) as (Hiff & Hvalid & _).
    cbv zeta in Hiff, Hvalid. destruct (Hvalid Hc) as (_ & _ & Hd & Hst).
    exists c. split; [exact Hd | split; [exact Hst |]].
    left. split; [reflexivity | split; [reflexivity |]]. apply Hiff, Hc.
  - rewrite run_snoc. destruct (run es0 (boot now stored)) as [w1 |]; [| discriminate].
    unfold step. destruct (enabled e w1) eqn:He; [| discriminate]. intros [= Hw].
    subst w. destruct w1 as [h cd sc st al]. destruct e; simpl in He; simpl handle in *.
    + apply andb_prop in He as [_ Hv]. rewrite (handleConsent_valid _ _ _ _ Hv).
      eexists. split; [reflexivity | split; [reflexivity |]].
      right. exists es0, f, created, stamped. auto.
    + discriminate.
    + destruct sc, h; discriminate.
Qed.

(** The events that submit the consent form, and those that deny. *)
Definition gives_consent (e : Event) : bool :=
  match e with GiveConsent _ _ _ => true | _ => false end.

Definition denies (e : Event) : bool :=
  match e with DenyAccess => true | _ => false end.

Lemma run_without_consent es w w' :
  hasConsent w = false → consentData w = None →
  forallb (λ e, negb (gives_consent e)) es = true →
  run es w = Some w' →
  hasConsent w' = false ∧ consentData w' = None ∧ storage w' = storage w
  ∧ length (alerts w') = (length (alerts w) + length (List.filter denies es))%nat.
Proof.
  revert w. induction es as [| e es' IH]; intros w Hh Hd Hes Hrun.
  - injection Hrun as <-. simpl. repeat split; [assumption | assumption | lia].
  - simpl in Hes. apply andb_prop in Hes as [He Hes]. simpl in Hrun.
    destruct (step e w) as [w1 |] eqn:Hstep; [| discriminate].
    unfold step in Hstep. destruct (enabled e w); [| discriminate].
    injection Hstep as <-.
    destruct w as [h cd sc st al]. simpl in Hh, Hd. subst h cd.
    destruct e; [discriminate He | |];
      destruct (IH _ (eq_refl : hasConsent (mkWorld false None _ st _) = false)
                  eq_refl Hes Hrun) as (H1 & H2 & H3 & H4);
      (split; [exact H1 | split; [exact H2 | split; [exact H3 |]]]);
      rewrite H4; simpl; rewrite ?length_app; simpl; lia.
Qed.

(** X19: until the consent form is submitted the app stays closed.  From a
    start of the app that shows the consent form (nothing stored, an empty
    or unparsable item, or a record that the consent check removes), on
    every run without a submitted form the app is not shown, no consent
    record is held, storage is what the start left, and every denial
    raised one alert. *)
Theorem app_stays_closed_without_consent now stored es w :
  render (boot now stored) = ConsentForm →
  forallb (λ e, negb (gives_consent e)) es = true →
  run es (boot now stored) = Some w →
  render w ≠ MainApp
  ∧ consentData w = None
  ∧ storage w = storage (boot now stored)
  ∧ length (alerts w) = length (List.filter denies es).
Proof.
  intros Hform Hes Hrun.
  assert (H0 : hasConsent (boot now stored) = false
               ∧ consentData (boot now stored) = None
               ∧ alerts (boot now stored) = []).
  { revert Hform. unfold boot. destruct stored as [[| | c] |];
      try solve [intros _; repeat split].
    unfold consentCheck, render, start, exec, mbind, handler_bind, bind, get,
      try_catch, ret.
    simpl. destruct (laterThan (consentDate c) (setDate now (-30))); simpl;
      [discriminate | intros _; repeat split]. }
  destruct H0 as (Hh & Hd & Ha).
  destruct (run_without_consent es _ w Hh Hd Hes Hrun) as (H1 & H2 & H3 & H4).
  rewrite Ha in H4. simpl in H4.
  split; [| auto].
  unfold render. rewrite H1. destruct (showConsent w); discriminate.
Qed.

End Facts.

End AppFacts.

(** ** The prompt screen *)

Module PromptScreenFacts.
Import PromptScreen.

(** Either no prompt request is in flight and a mounted screen is not
    loading, or exactly one is in flight, on a mounted screen that shows the
    spinner. *)
Definition one_prompt_at_a_time (w : World) : Prop :=
  (inFlight w = 0%nat ∧ (mounted w = true → isLoading (ui w) = false))
  ∨ (inFlight w = 1%nat ∧ mounted w = true ∧ isLoading (ui w) = true).

(** The draw screen has been entered only with the prompt on display, and
    that prompt is truthy. *)
Definition started_with_prompt (w : World) : Prop :=
  ∀ p, draw w = Some p → p = prompt (ui w) ∧ Js.truthy p = true.

Lemma step_prompt_invariants e w w' :
  one_prompt_at_a_time w ∧ started_with_prompt w →
  step e w = Some w' →
  one_prompt_at_a_time w' ∧ started_with_prompt w'.
Proof.
  intros (H1 & H2). unfold step. destruct (enabled e w) eqn:He; [| discriminate].
  intros [= <-]. destruct w as [[p l err] d n f].
  unfold one_prompt_at_a_time, started_with_prompt in *. simpl in H1, H2.
  destruct H1 as [(-> & Hl) | (-> & Hm & ->)].
  - destruct e; simpl in He; try discriminate;
      destruct d as [pd |]; try discriminate; specialize (Hl eq_refl); subst l.
    + (* ClickRetry *) split; [right; repeat split | intros q [=]].
    + (* ClickStart *)
      cbv [handle handleStart exec mbind handler_bind bind get ui prompt].
      destruct (Js.truthy p) eqn:Ep; simpl.
      * split; [left; split; [reflexivity | discriminate] |].
        intros q [= <-]. split; [reflexivity | exact Ep].
      * split; [left; split; [reflexivity | reflexivity] | intros q [=]].
  - destruct d as [pd |]; [discriminate |].
    destruct e; simpl in He; try discriminate.
    destruct r as [| [] [q |]]; simpl;
      (split; [left; split; reflexivity | intros q' [=]]).
Qed.

Lemma run_prompt_invariants es w w' :
  one_prompt_at_a_time w ∧ started_with_prompt w →
  run es w = Some w' →
  one_prompt_at_a_time w' ∧ started_with_prompt w'.
Proof.
  revert w. induction es as [| e es IH]; intros w H0; simpl.
  - intros [= <-]. exact H0.
  - destruct (step e w) as [w1 |] eqn:E; [| discriminate].
    apply IH. exact (step_prompt_invariants e w w1 H0 E).
Qed.

Lemma mount_prompt_invariants : one_prompt_at_a_time mount ∧ started_with_prompt mount.
Proof. split; [right; repeat split | intros p [=]]. Qed.

(** X13: while a prompt request is in flight the prompt screen shows the
    spinner and offers neither the retry nor the start button, so on every
    run at most one prompt request is outstanding. *)
Theorem one_prompt_request_in_flight es w :
  run es mount = Some w →
  (inFlight w ≤ 1)%nat
  ∧ (inFlight w = 1%nat →
     isLoading (ui w) = true
     ∧ enabled ClickRetry w = false ∧ enabled ClickStart w = false).
Proof.
  intros Hrun.
  destruct (run_prompt_invariants es mount w mount_prompt_invariants Hrun)
    as ([(Hn & _) | (Hn & Hm & Hl)] & _); rewrite Hn.
  - split; [lia | discriminate].
  - split; [lia |]. intros _. unfold enabled. rewrite Hl, Hm. repeat split.
Qed.

(** X14: the prompt screen hands over to the draw screen only a truthy
    prompt, and it is the prompt on display; with an empty or missing
    prompt the start button does nothing. *)
Theorem drawing_starts_with_the_displayed_prompt es w p :
  run es mount = Some w →
  draw w = Some p →
  p = prompt (ui w) ∧ Js.truthy p = true.
Proof.
  intros Hrun.
  destruct (run_prompt_invariants es mount w mount_prompt_invariants Hrun) as (_ & H).
  apply H.
Qed.

(** X15: a prompt request that fails (network error, non-ok response, or a
    body that is not JSON) keeps the prompt that was there, sets the error
    'Oops! Could not get your drawing idea. Try again?' and takes the
    spinner down; the error view offers the retry button and hides the
    start button. *)
Theorem failed_prompt_keeps_the_old_one r w :
  mounted w = true →
  enabled (PromptSettled r) w = true →
  r = Rejected ∨ (∃ p, r = Resolved false p) ∨ r = Resolved true None →
  ∃ w', step (PromptSettled r) w = Some w'
    ∧ prompt (ui w') = prompt (ui w)
    ∧ error (ui w') = Some "Oops! Could not get your drawing idea. Try again?"
    ∧ isLoading (ui w') = false
    ∧ draw w' = None
    ∧ enabled ClickRetry w' = true
    ∧ enabled ClickStart w' = false.
Proof.
  intros Hm He Hr. unfold step. rewrite He, Hm.
  destruct w as [[p l err] [d |] n f]; [discriminate |].
  eexists. split; [reflexivity |].
  destruct Hr as [-> | [[q ->] | ->]]; simpl; repeat split.
Qed.

End PromptScreenFacts.

(** ** Sessions to evaluate *)

Module Scenarios.
Import TalkScreen TalkScreenFacts.

(** A browser to evaluate with: [atob] takes a string to its bytes, and
    [parseInt] keeps numbers and finds none elsewhere. *)
Definition sampleBrowser : Browser := {|
  atob := λ v, match v with
               | Js.Str s => Some (String.list_byte_of_string s)
               | _ => None
               end;
  parseInt := λ v, match v with
                   | Js.Num n => Js.Num n
                   | _ => Js.Undefined
                   end
|}.

(** The state that the draw screen hands over in the scenario of the
    specification, first without and then with question audio. *)
Definition textLocation : option LocationState :=
  Some (mkLoc (Js.Str "What is your animal doing?") Js.Undefined (Js.Num 42) (Js.Num 7)).

Definition audioLocation : option LocationState :=
  Some (mkLoc (Js.Str "What is your animal doing?") (Js.Str "RIFF") (Js.Num 42) (Js.Num 7)).

(** A state without identifiers. *)
Definition anonymousLocation : option LocationState :=
  Some (mkLoc (Js.Str "What is your animal doing?") Js.Undefined Js.Null (Js.Num 0)).

Definition after (browser : Browser) (loc : option LocationState) (es : list Event)
  : World :=
  default initialWorld (@run browser loc es (@mount browser loc)).

(** The child answers and stops, and the recorder's stop event arrives;
    the child starts over and finishes while the microphone is still
    being acquired; the microphone then arrives, the child stops again
    and, after the stop event, finishes again. *)
Definition firstSubmission : list Event :=
  [ClickTalk; UserMediaGranted 1; RecorderData 0 [Byte.x01]; ClickTalk;
   RecorderStopped 0; ClickTalk; ClickFinish].

Definition secondSubmission : list Event := [ClickTalk; RecorderStopped 1; ClickFinish].

(** C5, on the talk screen: the loading flag does not stay up for as long
    as the request is in flight.  With a transcribe request outstanding and
    the spinner showing, a pending [getUserMedia] settles, the effect on
    [mediaRecorder] runs [getQuestion] again, and [getQuestion] lowers the
    flag; both buttons are enabled again, and finishing a second time puts
    a second request in flight next to the first. *)
Theorem C5_second_request_next_to_the_first (browser : Browser) :
  ∃ w1 w2 w3,
    @run browser textLocation firstSubmission (@mount browser textLocation) = Some w1
    ∧ inFlight w1 = 1%nat ∧ isLoading (ui w1) = true
    ∧ enabled ClickFinish w1 = false
    ∧ @step browser textLocation (UserMediaGranted 1) w1 = Some w2
    ∧ inFlight w2 = 1%nat ∧ isLoading (ui w2) = false
    ∧ enabled ClickTalk w2 = true ∧ enabled ClickFinish w2 = true
    ∧ @run browser textLocation secondSubmission w2 = Some w3
    ∧ inFlight w3 = 2%nat ∧ length (requests w3) = 2%nat.
Proof.
  exists (after browser textLocation firstSubmission),
         (after browser textLocation (firstSubmission ++ [UserMediaGranted 1])),
         (after browser textLocation
            (firstSubmission ++ [UserMediaGranted 1] ++ secondSubmission)).
  repeat apply conj; vm_compute; reflexivity.
Qed.

(** *** The claims at sample sessions *)

(** An answer with one chunk of audio, and an answer during which the
    recorder gathered nothing. *)
Definition spokenAnswer : list Event :=
  [ClickTalk; UserMediaGranted 1; RecorderData 0 [Byte.x01]; ClickTalk;
   RecorderStopped 0].

Definition silentAnswer : list Event :=
  [ClickTalk; UserMediaGranted 1; ClickTalk; RecorderStopped 0].

Definition submittedWorld : World :=
  Eval vm_compute in after sampleBrowser textLocation (spokenAnswer ++ [ClickFinish]).

Definition noResponse : TranscribeResult := mkResult Js.Null Js.Undefined.

Lemma C1_witness :
  stage_of submittedWorld = Submitting
  ∧ Js.truthy (res_response noResponse) = false
  ∧ ∃ w', @step sampleBrowser textLocation
             (FetchSettled (Resolved true (Some noResponse))) submittedWorld = Some w'
          ∧ stage_of w' = Finished
          ∧ route w' = EndRoute
          ∧ showResponse (ui w') = false.
Proof.
  split; [reflexivity | split; [reflexivity |]].
  apply (@C1_no_response_goes_to_finished sampleBrowser textLocation
           submittedWorld noResponse); reflexivity.
Defined.

(** The claim C2 as stated fails: after a failed request the recording is
    still there, and once the error is dismissed the same audio can be
    submitted again without a fresh recording. *)
Lemma C2_recording_survives_failure :
  ∃ w' w'',
    stage_of submittedWorld = Submitting
    ∧ @step sampleBrowser textLocation (FetchSettled Rejected) submittedWorld = Some w'
    ∧ hasRecording (ui w') = true
    ∧ recordedChunks (ui w') = [[Byte.x01]]
    ∧ @run sampleBrowser textLocation [ClickTryAgain; ClickFinish] w' = Some w''
    ∧ fd_audio <$> requests w'' = [[Byte.x01]; [Byte.x01]].
Proof.
  exists (default initialWorld
            (@step sampleBrowser textLocation (FetchSettled Rejected) submittedWorld)),
         (default initialWorld
            (@run sampleBrowser textLocation
               [FetchSettled Rejected; ClickTryAgain; ClickFinish] submittedWorld)).
  repeat apply conj; vm_compute; reflexivity.
Qed.

Lemma C2_witness :
  stage_of submittedWorld = Submitting
  ∧ ∃ w', @step sampleBrowser textLocation (FetchSettled Rejected) submittedWorld = Some w'
          ∧ error (ui w') = Some "Could not save your recording. Try again!"
          ∧ isLoading (ui w') = false
          ∧ recordedChunks (ui w') = recordedChunks (ui submittedWorld)
          ∧ hasRecording (ui w') = hasRecording (ui submittedWorld)
          ∧ requests w' = requests submittedWorld
          ∧ (inFlight submittedWorld = 1%nat → isRecording (ui submittedWorld) = false →
             stage_of w' = AwaitingAnswer).
Proof.
  split; [reflexivity |].
  apply (@C2_failure_keeps_recording sampleBrowser textLocation submittedWorld Rejected);
    [reflexivity | left; reflexivity].
Defined.

Definition textOnlyResult : DrawScreen.AnalysisResult :=
  DrawScreen.mkAnalysis (Js.Str "What is your animal doing?") (Js.Num 42) (Js.Num 7)
    Js.Undefined.

Lemma C3_witness :
  Js.truthy (DrawScreen.ar_question textOnlyResult) = true
  ∧ Js.truthy (DrawScreen.ar_questionAudio textOnlyResult) = false
  ∧ (let loc := Some (DrawScreen.talkState textOnlyResult) in
     stage_of (@mount sampleBrowser loc) = AwaitingAnswer
     ∧ questionBubble (ui (@mount sampleBrowser loc))
       = Some (DrawScreen.ar_question textOnlyResult)
     ∧ ∀ es w, @run sampleBrowser loc es (@mount sampleBrowser loc) = Some w →
               questionAudio (ui w) = None ∧ playLog w = [] ∧ playStarts w = []).
Proof.
  split; [reflexivity | split; [reflexivity |]].
  apply (@C3_question_without_audio sampleBrowser textOnlyResult); reflexivity.
Defined.

(** The question audio is still loading when the microphone is refused.
    The error box takes the audio element off the screen; "Try Again"
    brings the content back with a new element, on which the play effect
    starts a second [playAudio] call next to the first. *)
Definition refusedAndRetried : list Event :=
  [ClickTalk; UserMediaDenied; ClickTryAgain].

(** C4, on the talk screen: the already-played flag keeps the play effect
    from calling [playAudio] again, but not a call that is waiting for its
    element from starting playback.  After the microphone was refused and
    the question fetched again, two calls wait, each on an element of its
    own and on a blob URL of the one payload.  The first to get its
    element ready starts playback and sets the flag; the second then
    starts playback of the same payload once more. *)
Theorem C4_question_audio_starts_twice :
  ∃ w1 w2 w3 payload,
    @run sampleBrowser audioLocation refusedAndRetried (@mount sampleBrowser audioLocation)
    = Some w1
    ∧ audioRef w1 = Some 1%nat
    ∧ audios w1 = [mkAudio (Some 0%nat) false true; mkAudio (Some 1%nat) false true]
    ∧ objectUrls w1 !! 0%nat = Some payload
    ∧ objectUrls w1 !! 1%nat = Some payload
    ∧ questionAudioPlayed (ui w1) = false
    ∧ playStarts w1 = []
    ∧ @step sampleBrowser audioLocation (AudioSettled 0 true) w1 = Some w2
    ∧ questionAudioPlayed (ui w2) = true
    ∧ playStarts w2 = [0%nat]
    ∧ @step sampleBrowser audioLocation (AudioSettled 1 true) w2 = Some w3
    ∧ questionAudioPlayed (ui w3) = true
    ∧ playStarts w3 = [0%nat; 1%nat].
Proof.
  exists (after sampleBrowser audioLocation refusedAndRetried),
         (after sampleBrowser audioLocation (refusedAndRetried ++ [AudioSettled 0 true])),
         (after sampleBrowser audioLocation
            (refusedAndRetried ++ [AudioSettled 0 true; AudioSettled 1 true])),
         (String.list_byte_of_string "RIFF").
  repeat apply conj; vm_compute; reflexivity.
Qed.

Definition silentWorld : World :=
  Eval vm_compute in after sampleBrowser textLocation silentAnswer.

Lemma C7_witness :
  enabled ClickFinish silentWorld = true
  ∧ hasRecording (ui silentWorld) = true
  ∧ recordedChunks (ui silentWorld) = []
  ∧ Js.truthy (loc_drawingId (orEmpty textLocation)) = true
  ∧ Js.truthy (loc_questionId (orEmpty textLocation)) = true
  ∧ ∃ w' body, @step sampleBrowser textLocation ClickFinish silentWorld = Some w'
      ∧ requests w' = requests silentWorld ++ [body]
      ∧ fd_audio body = newBlob [] ∧ blob_size (fd_audio body) = 0%nat
      ∧ inFlight w' = S (inFlight silentWorld)
      ∧ stage_of w' = Submitting.
Proof.
  do 5 (split; [reflexivity |]).
  apply (@C7_empty_recording_is_submitted sampleBrowser textLocation silentWorld);
    reflexivity.
Defined.

Definition askingWorld : World :=
  Eval vm_compute in after sampleBrowser textLocation [ClickTalk].

Lemma C8_witness :
  stage_of askingWorld = AwaitingAnswer
  ∧ (0 < micPending askingWorld)%nat
  ∧ ∃ w', @step sampleBrowser textLocation UserMediaDenied askingWorld = Some w'
      ∧ stage_of w' = AwaitingAnswer
      ∧ isRecording (ui w') = false
      ∧ error (ui w') = Some "Could not access microphone. Please check permissions."
      ∧ mediaRecorder (ui w') = mediaRecorder (ui askingWorld)
      ∧ recorders w' = recorders askingWorld
      ∧ recordedChunks (ui w') = recordedChunks (ui askingWorld)
      ∧ hasRecording (ui w') = hasRecording (ui askingWorld).
Proof.
  split; [reflexivity | split; [simpl; lia |]].
  apply (@C8_denied_microphone_stays_awaiting sampleBrowser textLocation askingWorld);
    [reflexivity | simpl; lia].
Defined.

Definition recordingWorld : World :=
  Eval vm_compute in after sampleBrowser textLocation [ClickTalk; UserMediaGranted 1].

(** C9, on the talk screen: the microphone outlives the screen.  When
    the screen is left during a recording, the cleanup stops the recorder,
    but the tracks of its stream are still live when the screen is gone:
    they end in [onstop], which runs when the queued stop event is
    dispatched.  And when the screen is left while [getUserMedia] is still
    pending, the stream arrives on a screen that is gone,
    [startRecording] goes on to start a recorder on it, and from then on
    that recorder records, its track live, whatever happens. *)
Theorem C9_microphone_outlives_the_screen (browser : Browser) :
  (∃ w1 w2 w3,
     @run browser textLocation [ClickTalk; UserMediaGranted 1] (@mount browser textLocation)
     = Some w1
     ∧ recorders w1 = [mkRecorder Recording [Live] [] false]
     ∧ @step browser textLocation NavigateAway w1 = Some w2
     ∧ mounted w2 = false
     ∧ recorders w2 = [mkRecorder Inactive [Live] [] true]
     ∧ @step browser textLocation (RecorderStopped 0) w2 = Some w3
     ∧ recorders w3 = [mkRecorder Inactive [Ended] [] false])
  ∧ (∃ v1 v2,
       @run browser textLocation [ClickTalk; NavigateAway] (@mount browser textLocation)
       = Some v1
       ∧ mounted v1 = false
       ∧ recorders v1 = []
       ∧ micPending v1 = 1%nat
       ∧ @step browser textLocation (UserMediaGranted 1) v1 = Some v2
       ∧ mounted v2 = false
       ∧ recorders v2 = [mkRecorder Recording [Live] [] false]
       ∧ ∀ es v3, @run browser textLocation es v2 = Some v3 →
           ∃ r, recorders v3 !! 0%nat = Some r
                ∧ rec_state r = Recording ∧ rec_stream r = [Live]).
Proof.
  split.
  - exists (after browser textLocation [ClickTalk; UserMediaGranted 1]),
           (after browser textLocation [ClickTalk; UserMediaGranted 1; NavigateAway]),
           (after browser textLocation
              [ClickTalk; UserMediaGranted 1; NavigateAway; RecorderStopped 0]).
    repeat apply conj; vm_compute; reflexivity.
  - exists (after browser textLocation [ClickTalk; NavigateAway]),
           (after browser textLocation [ClickTalk; NavigateAway; UserMediaGranted 1]).
    do 7 (split; [vm_compute; reflexivity |]).
    intros es v3 Hrun.
    destruct (run_keeps_recording textLocation es
                (after browser textLocation [ClickTalk; NavigateAway; UserMediaGranted 1])
                v3 0%nat (mkRecorder Recording [Live] [] false))
      as (_ & r & Hr & Hs & _ & Ht);
      [vm_compute; reflexivity | vm_compute; reflexivity | reflexivity | reflexivity
      | exact Hrun |].
    exists r. auto.
Qed.

Definition anonymousWorld : World :=
  Eval vm_compute in after sampleBrowser anonymousLocation spokenAnswer.

Lemma C10_witness :
  enabled ClickFinish anonymousWorld = true
  ∧ hasRecording (ui anonymousWorld) = true
  ∧ (Js.truthy (loc_drawingId (orEmpty anonymousLocation)) = false
     ∨ Js.truthy (loc_questionId (orEmpty anonymousLocation)) = false)
  ∧ ∃ w', @step sampleBrowser anonymousLocation ClickFinish anonymousWorld = Some w'
      ∧ ui w' = with_error (Some "Missing drawing or question ID.") (ui anonymousWorld)
      ∧ requests w' = requests anonymousWorld ∧ inFlight w' = inFlight anonymousWorld
      ∧ recorders w' = recorders anonymousWorld ∧ route w' = TalkRoute.
Proof.
  split; [reflexivity | split; [reflexivity | split; [left; reflexivity |]]].
  apply (@C10_missing_ids_no_request sampleBrowser anonymousLocation anonymousWorld);
    [reflexivity | reflexivity | left; reflexivity].
Defined.

(** *** Further sessions *)

Definition niceResponse : TranscribeResult :=
  mkResult (Js.Str "What a lovely cat!") (Js.Str "RIFF").


Definition spokenWorld : World :=
  Eval vm_compute in after sampleBrowser textLocation spokenAnswer.

(** A second answer on top of the first. *)
Definition secondAnswer : list Event :=
  [ClickTalk; UserMediaGranted 1; RecorderData 1 [Byte.x02]; ClickTalk;
   RecorderStopped 1].

Definition twiceSpokenWorld : World :=
  Eval vm_compute in after sampleBrowser textLocation (spokenAnswer ++ secondAnswer).

Definition twiceSubmittedWorld : World :=
  Eval vm_compute in
    after sampleBrowser textLocation (spokenAnswer ++ secondAnswer ++ [ClickFinish]).

Lemma recorded_chunks_only_grow_witness :
  @run sampleBrowser textLocation secondAnswer spokenWorld = Some twiceSpokenWorld
  ∧ recordedChunks (ui spokenWorld) `prefix_of` recordedChunks (ui twiceSpokenWorld).
Proof.
  split; [reflexivity |].
  apply (@recorded_chunks_only_grow sampleBrowser textLocation secondAnswer
           spokenWorld twiceSpokenWorld); reflexivity.
Defined.

Lemma submitted_audio_contains_earlier_recordings_witness :
  @run sampleBrowser textLocation secondAnswer spokenWorld = Some twiceSpokenWorld
  ∧ @step sampleBrowser textLocation ClickFinish twiceSpokenWorld = Some twiceSubmittedWorld
  ∧ requests twiceSubmittedWorld
    = requests twiceSpokenWorld ++ [mkForm [Byte.x01; Byte.x02] (Js.Num 42) (Js.Num 7)]
  ∧ newBlob (recordedChunks (ui spokenWorld))
      `prefix_of` fd_audio (mkForm [Byte.x01; Byte.x02] (Js.Num 42) (Js.Num 7)).
Proof.
  split; [reflexivity | split; [reflexivity | split; [reflexivity |]]].
  apply (@submitted_audio_contains_earlier_recordings sampleBrowser textLocation
           secondAnswer spokenWorld twiceSpokenWorld twiceSubmittedWorld); reflexivity.
Defined.

Lemma every_request_carries_the_ids_witness :
  @run sampleBrowser textLocation (spokenAnswer ++ [ClickFinish])
    (@mount sampleBrowser textLocation) = Some submittedWorld
  ∧ (∀ body, body ∈ requests submittedWorld →
       fd_drawing_id body = @parseInt sampleBrowser (loc_drawingId (orEmpty textLocation))
       ∧ fd_question_id body = @parseInt sampleBrowser (loc_questionId (orEmpty textLocation))
       ∧ Js.truthy (loc_drawingId (orEmpty textLocation)) = true
       ∧ Js.truthy (loc_questionId (orEmpty textLocation)) = true)
  ∧ (Js.truthy (loc_drawingId (orEmpty textLocation)) = false
     ∨ Js.truthy (loc_questionId (orEmpty textLocation)) = false →
     requests submittedWorld = []).
Proof.
  split; [reflexivity |].
  apply (@every_request_carries_the_ids sampleBrowser textLocation
           (spokenAnswer ++ [ClickFinish]) submittedWorld); reflexivity.
Defined.

Lemma response_is_shown_witness :
  stage_of submittedWorld = Submitting
  ∧ Js.truthy (res_response niceResponse) = true
  ∧ ∃ w', @step sampleBrowser textLocation
             (FetchSettled (Resolved true (Some niceResponse))) submittedWorld = Some w'
    ∧ stage_of w' = Responding
    ∧ response (ui w') = res_response niceResponse
    ∧ isLoading (ui w') = false
    ∧ requests w' = requests submittedWorld
    ∧ (Js.truthy_str (error (ui submittedWorld)) = false →
       responseBubble (ui w') = Some (res_response niceResponse))
    ∧ responseAudio (ui w')
      = match (if Js.truthy (res_responseAudio niceResponse)
               then @atob sampleBrowser (res_responseAudio niceResponse) else None) with
        | Some _ => Some (length (objectUrls submittedWorld))
        | None => responseAudio (ui submittedWorld)
        end.
Proof.
  split; [reflexivity | split; [reflexivity |]].
  apply (@response_is_shown sampleBrowser textLocation submittedWorld niceResponse);
    reflexivity.
Defined.



Lemma finish_without_recording_witness :
  enabled ClickFinish recordingWorld = true
  ∧ hasRecording (ui recordingWorld) = false
  ∧ ∃ w', @step sampleBrowser textLocation ClickFinish recordingWorld = Some w'
    ∧ route w' = EndRoute
    ∧ stage_of w' = Finished
    ∧ requests w' = requests recordingWorld
    ∧ inFlight w' = inFlight recordingWorld.
Proof.
  split; [reflexivity | split; [reflexivity |]].
  apply (@finish_without_recording_submits_nothing sampleBrowser textLocation
           recordingWorld); reflexivity.
Defined.

Definition loadingAudioWorld : World :=
  Eval vm_compute in @mount sampleBrowser audioLocation.

Lemma audio_failure_witness :
  mounted loadingAudioWorld = true
  ∧ enabled (AudioSettled 0 false) loadingAudioWorld = true
  ∧ ∃ w', @step sampleBrowser audioLocation (AudioSettled 0 false) loadingAudioWorld
          = Some w'
    ∧ error (ui w') = Some "Unable to play the question audio. Please try again."
    ∧ question (ui w') = question (ui loadingAudioWorld)
    ∧ questionBubble (ui w') = None
    ∧ enabled ClickTalk w' = false
    ∧ enabled ClickFinish w' = false
    ∧ enabled ClickTryAgain w' = negb (isLoading (ui loadingAudioWorld)).
Proof.
  split; [reflexivity | split; [reflexivity |]].
  apply (@audio_failure_hides_the_question sampleBrowser audioLocation 0%nat
           loadingAudioWorld);
    reflexivity.
Defined.

(** The talk screen opened without any navigation state. *)
Lemma missing_question_witness :
  Js.truthy (loc_question (orEmpty None)) = false
  ∧ @run sampleBrowser None [ClickTryAgain; ClickTryAgain] (@mount sampleBrowser None)
    = Some (stuckWorld TalkRoute)
  ∧ (stuckWorld TalkRoute = stuckWorld TalkRoute ∨ stuckWorld TalkRoute = stuckWorld Elsewhere)
  ∧ error (ui (stuckWorld TalkRoute)) = Some "Oops! Something went wrong. Please try again."
  ∧ questionBubble (ui (stuckWorld TalkRoute)) = None
  ∧ micPending (stuckWorld TalkRoute) = 0%nat
  ∧ recorders (stuckWorld TalkRoute) = []
  ∧ requests (stuckWorld TalkRoute) = [].
Proof.
  split; [reflexivity | split; [reflexivity |]].
  apply (@missing_question_is_a_dead_end sampleBrowser None eq_refl
           [ClickTryAgain; ClickTryAgain] (stuckWorld TalkRoute)); reflexivity.
Defined.


(** *** The draw screen *)

Definition drawPrompt : string := "Draw your favorite animal".

Definition photograph : list DrawScreen.Event :=
  [DrawScreen.ClickStartCamera;
   DrawScreen.ClickCapture (Some "data:image/jpeg;base64,AAAA");
   DrawScreen.ClickNext;
   DrawScreen.ImageConverted 0 (Some [Byte.x00; Byte.x00; Byte.x00])].

Definition analysingWorld : DrawScreen.World :=
  Eval vm_compute in
    default DrawScreen.initialWorld
      (DrawScreen.run drawPrompt photograph DrawScreen.initialWorld).

Lemma one_analysis_in_flight_witness :
  DrawScreen.run drawPrompt photograph DrawScreen.initialWorld = Some analysingWorld
  ∧ (DrawScreen.analysesInFlight analysingWorld ≤ 1)%nat
  ∧ (DrawScreen.analysesInFlight analysingWorld = 1%nat →
     DrawScreen.nextDisabled (DrawScreen.ui analysingWorld) = true).
Proof.
  split; [reflexivity |].
  apply (DrawScreenFacts.one_analysis_in_flight drawPrompt photograph analysingWorld);
    reflexivity.
Defined.

Lemma failed_analysis_witness :
  DrawScreen.mounted analysingWorld = true
  ∧ DrawScreen.enabled (DrawScreen.AnalysisSettled 0 DrawScreen.Rejected) analysingWorld = true
  ∧ ∃ w', DrawScreen.step drawPrompt (DrawScreen.AnalysisSettled 0 DrawScreen.Rejected)
            analysingWorld = Some w'
    ∧ DrawScreen.capturedImage (DrawScreen.ui w')
      = DrawScreen.capturedImage (DrawScreen.ui analysingWorld)
    ∧ DrawScreen.error (DrawScreen.ui w')
      = Some "Could not analyze your drawing. Please try again."
    ∧ DrawScreen.isLoading (DrawScreen.ui w') = false
    ∧ DrawScreen.talk w' = None
    ∧ DrawScreen.requests w' = DrawScreen.requests analysingWorld
    ∧ DrawScreen.nextDisabled (DrawScreen.ui w')
      = negb (Js.truthy_str (DrawScreen.capturedImage (DrawScreen.ui analysingWorld))).
Proof.
  split; [reflexivity | split; [reflexivity |]].
  apply (DrawScreenFacts.failed_analysis_keeps_the_image drawPrompt 0
           DrawScreen.Rejected analysingWorld);
    [reflexivity | reflexivity | left; reflexivity].
Defined.

Definition animalResult : DrawScreen.AnalysisResult :=
  DrawScreen.mkAnalysis (Js.Str "What is your animal doing?") (Js.Num 42) (Js.Num 7)
    (Js.Str "RIFF").

Definition analysedWorld : DrawScreen.World :=
  Eval vm_compute in
    default DrawScreen.initialWorld
      (DrawScreen.run drawPrompt
         (photograph ++ [DrawScreen.AnalysisSettled 0
                           (DrawScreen.Resolved true (Some animalResult))])
         DrawScreen.initialWorld).

Lemma talk_screen_only_after_analysis_witness :
  DrawScreen.run drawPrompt
    (photograph ++ [DrawScreen.AnalysisSettled 0
                      (DrawScreen.Resolved true (Some animalResult))])
    DrawScreen.initialWorld = Some analysedWorld
  ∧ (∀ body, body ∈ DrawScreen.requests analysedWorld →
             DrawScreen.fd_prompt body = drawPrompt)
  ∧ (is_Some (DrawScreen.talk analysedWorld) → DrawScreen.requests analysedWorld ≠ []).
Proof.
  split; [reflexivity |].
  apply (DrawScreenFacts.talk_screen_only_after_analysis drawPrompt
           (photograph ++ [DrawScreen.AnalysisSettled 0
                             (DrawScreen.Resolved true (Some animalResult))])
           analysedWorld); reflexivity.
Defined.

Definition secondPhotograph : list DrawScreen.Event :=
  [DrawScreen.ClickRetake; DrawScreen.ClickCapture (Some "data:image/jpeg;base64,BBBB")].

Definition retakenWorld : DrawScreen.World :=
  Eval vm_compute in
    default DrawScreen.initialWorld
      (DrawScreen.run drawPrompt secondPhotograph analysingWorld).

Lemma retake_does_not_cancel_witness :
  DrawScreen.suspended analysingWorld !! 0%nat = Some DrawScreen.AtAnalysis
  ∧ Forall (DrawScreenFacts.camera_click) secondPhotograph
  ∧ DrawScreen.run drawPrompt secondPhotograph analysingWorld = Some retakenWorld
  ∧ ∃ w2, DrawScreen.step drawPrompt
            (DrawScreen.AnalysisSettled 0 (DrawScreen.Resolved true (Some animalResult)))
            retakenWorld = Some w2
    ∧ DrawScreen.talk w2 = Some (DrawScreen.talkState animalResult)
    ∧ DrawScreen.requests w2 = DrawScreen.requests analysingWorld.
Proof.
  assert (Hclicks : Forall (DrawScreenFacts.camera_click) secondPhotograph).
  { apply Forall_cons; split; [left; reflexivity |].
    apply Forall_cons; split; [| apply Forall_nil; exact I].
    right. right. eexists. reflexivity. }
  split; [reflexivity | split; [exact Hclicks | split; [reflexivity |]]].
  apply (DrawScreenFacts.retake_does_not_cancel_the_analysis drawPrompt 0 animalResult
           secondPhotograph analysingWorld retakenWorld);
    [reflexivity | exact Hclicks | reflexivity].
Defined.

(** *** The prompt screen *)

Definition promptArrives : list PromptScreen.Event :=
  [PromptScreen.PromptSettled (PromptScreen.Resolved true (Some (Js.Str drawPrompt)))].

Definition promptedWorld : PromptScreen.World :=
  Eval vm_compute in
    default PromptScreen.initialWorld (PromptScreen.run promptArrives PromptScreen.mount).

Definition refreshingWorld : PromptScreen.World :=
  Eval vm_compute in
    default PromptScreen.initialWorld
      (PromptScreen.run (promptArrives ++ [PromptScreen.ClickRetry]) PromptScreen.mount).

Definition startedWorld : PromptScreen.World :=
  Eval vm_compute in
    default PromptScreen.initialWorld
      (PromptScreen.run (promptArrives ++ [PromptScreen.ClickStart]) PromptScreen.mount).

Lemma one_prompt_request_witness :
  PromptScreen.run (promptArrives ++ [PromptScreen.ClickRetry]) PromptScreen.mount
  = Some refreshingWorld
  ∧ (PromptScreen.inFlight refreshingWorld ≤ 1)%nat
  ∧ (PromptScreen.inFlight refreshingWorld = 1%nat →
     PromptScreen.isLoading (PromptScreen.ui refreshingWorld) = true
     ∧ PromptScreen.enabled PromptScreen.ClickRetry refreshingWorld = false
     ∧ PromptScreen.enabled PromptScreen.ClickStart refreshingWorld = false).
Proof.
  split; [reflexivity |].
  apply (PromptScreenFacts.one_prompt_request_in_flight
           (promptArrives ++ [PromptScreen.ClickRetry]) refreshingWorld); reflexivity.
Defined.

Lemma drawing_starts_witness :
  PromptScreen.run (promptArrives ++ [PromptScreen.ClickStart]) PromptScreen.mount
  = Some startedWorld
  ∧ PromptScreen.draw startedWorld = Some (Js.Str drawPrompt)
  ∧ Js.Str drawPrompt = PromptScreen.prompt (PromptScreen.ui startedWorld)
  ∧ Js.truthy (Js.Str drawPrompt) = true.
Proof.
  split; [reflexivity | split; [reflexivity |]].
  apply (PromptScreenFacts.drawing_starts_with_the_displayed_prompt
           (promptArrives ++ [PromptScreen.ClickStart]) startedWorld (Js.Str drawPrompt));
    reflexivity.
Defined.

Lemma failed_prompt_witness :
  PromptScreen.mounted refreshingWorld = true
  ∧ PromptScreen.enabled (PromptScreen.PromptSettled PromptScreen.Rejected) refreshingWorld
    = true
  ∧ ∃ w', PromptScreen.step (PromptScreen.PromptSettled PromptScreen.Rejected)
            refreshingWorld = Some w'
    ∧ PromptScreen.prompt (PromptScreen.ui w')
      = PromptScreen.prompt (PromptScreen.ui refreshingWorld)
    ∧ PromptScreen.error (PromptScreen.ui w')
      = Some "Oops! Could not get your drawing idea. Try again?"
    ∧ PromptScreen.isLoading (PromptScreen.ui w') = false
    ∧ PromptScreen.draw w' = None
    ∧ PromptScreen.enabled PromptScreen.ClickRetry w' = true
    ∧ PromptScreen.enabled PromptScreen.ClickStart w' = false.
Proof.
  split; [reflexivity | split; [reflexivity |]].
  apply (PromptScreenFacts.failed_prompt_keeps_the_old_one PromptScreen.Rejected
           refreshingWorld);
    [reflexivity | reflexivity | left; reflexivity].
Defined.

(** *** The consent gate *)

Definition hour : Z := 3600000.

(** New York in 2024: five hours behind UTC, and four while daylight
    saving time is on, from 10 March 07:00 UTC to 3 November 06:00 UTC.
    A local time that the clock skips or shows twice is read with the
    offset from before the change. *)
Definition spring2024 : Z := 1710054000000.
Definition autumn2024 : Z := 1730613600000.

Definition newYork : App.TimeZone := {|
  App.LocalTime := λ t,
    if (spring2024 <=? t) && (t <? autumn2024) then t - 4 * hour else t - 5 * hour;
  App.UTC := λ l,
    if l <? spring2024 - 4 * hour then l + 5 * hour
    else if l <? autumn2024 - 4 * hour then l + 4 * hour
    else l + 5 * hour
|}.




Definition filledForm : App.Form := App.mkForm "Alex Doe" "alex@example.org" "7" true.

(** The form is given on 1 June 2024 at 08:00 in New York and the app is
    started again ten days later; no clock change lies in the thirty days
    before that start. *)
Definition givenAt : Z := 1717243200000.
Definition tenDaysLater : Z := givenAt + 10 * App.msPerDay.

Lemma no_clock_change_before_june : @App.sameOffset newYork tenDaysLater.
Proof. exists (- (4 * hour)). split; vm_compute; reflexivity. Qed.

Lemma consent_lasts_thirty_days_witness :
  App.isFormValid filledForm = true
  ∧ (let stored := App.storage (exec (@App.handleConsent sampleBrowser filledForm
                                        givenAt givenAt) (App.start None)) in
     (App.render (@App.boot newYork tenDaysLater stored) = App.MainApp
      ↔ @App.UTC newYork (@App.LocalTime newYork tenDaysLater - 30 * App.msPerDay)
        < givenAt)
     ∧ (@App.sameOffset newYork tenDaysLater →
        (App.render (@App.boot newYork tenDaysLater stored) = App.MainApp
         ↔ tenDaysLater - givenAt < 30 * App.msPerDay))
     ∧ (App.render (@App.boot newYork tenDaysLater stored) = App.MainApp →
        App.storage (@App.boot newYork tenDaysLater stored) = stored)
     ∧ (App.render (@App.boot newYork tenDaysLater stored) ≠ App.MainApp →
        App.render (@App.boot newYork tenDaysLater stored) = App.ConsentForm
        ∧ App.storage (@App.boot newYork tenDaysLater stored) = None)).
Proof.
  split; [reflexivity |].
  apply (@AppFacts.consent_lasts_thirty_days sampleBrowser newYork filledForm
           givenAt givenAt tenDaysLater (App.start None)); reflexivity.
Defined.

(** The form is denied twice over an item in storage that does not parse. *)
Definition deniedTwice : list App.Event :=
  [App.DenyAccess; App.ContinueToForm; App.DenyAccess].

Definition deniedWorld : App.World :=
  Eval vm_compute in
    default (App.start None)
      (@App.run sampleBrowser deniedTwice
         (@App.boot newYork tenDaysLater (Some App.Unparsable))).

Lemma app_stays_closed_witness :
  App.render (@App.boot newYork tenDaysLater (Some App.Unparsable)) = App.ConsentForm
  ∧ forallb (λ e, negb (AppFacts.gives_consent e)) deniedTwice = true
  ∧ @App.run sampleBrowser deniedTwice (@App.boot newYork tenDaysLater (Some App.Unparsable))
    = Some deniedWorld
  ∧ App.render deniedWorld ≠ App.MainApp
  ∧ App.consentData deniedWorld = None
  ∧ App.storage deniedWorld
    = App.storage (@App.boot newYork tenDaysLater (Some App.Unparsable))
  ∧ length (App.alerts deniedWorld) = length (List.filter AppFacts.denies deniedTwice).
Proof.
  split; [reflexivity | split; [reflexivity | split; [reflexivity |]]].
  apply (@AppFacts.app_stays_closed_without_consent sampleBrowser newYork tenDaysLater
           (Some App.Unparsable) deniedTwice deniedWorld); reflexivity.
Defined.

(** A first start of the app: the form is shown and denied, then reopened,
    filled in and given. *)
Definition deniedThenGiven : list App.Event :=
  [App.DenyAccess; App.ContinueToForm; App.GiveConsent filledForm givenAt givenAt].

Definition consentedWorld : App.World :=
  Eval vm_compute in
    default (App.start None)
      (@App.run sampleBrowser deniedThenGiven (@App.boot newYork givenAt None)).

Lemma app_is_shown_witness :
  @App.run sampleBrowser deniedThenGiven (@App.boot newYork givenAt None)
  = Some consentedWorld
  ∧ App.render consentedWorld = App.MainApp
  ∧ (∃ c, App.consentData consentedWorld = Some c
          ∧ App.storage consentedWorld = Some (App.Json c)
          ∧ ((deniedThenGiven = [] ∧ None = Some (App.Json c)
              ∧ ∃ t, App.consentDate c = Some t
                     ∧ @App.UTC newYork (@App.LocalTime newYork givenAt
                                          - 30 * App.msPerDay) < t)
             ∨ ∃ es0 f created stamped,
                 deniedThenGiven = es0 ++ [App.GiveConsent f created stamped]
                 ∧ App.isFormValid f = true
                 ∧ c = @AppFacts.recordOf sampleBrowser f created stamped))
  ∧ ∀ e, @App.step sampleBrowser e consentedWorld = None.
Proof.
  split; [reflexivity | split; [reflexivity |]].
  apply (@AppFacts.app_is_shown_only_on_a_record sampleBrowser newYork givenAt None
           deniedThenGiven consentedWorld); reflexivity.
Defined.

End Scenarios.
